(** * PiBoard display client: pairing, content synchronisation, display scheduler

    A shallow embedding of the TypeScript sources
    ([services/deviceService.ts], [services/contentService.ts],
    [hooks/useContentSubscription.ts], [components/ContentDisplay.tsx],
    [components/DevicePairing.tsx]) and the properties of the design
    document that can be stated over it.

    Conventions.
    - An [async] function, or a function that may throw, is a computation
      [Eff A]: it takes the world, returns a completion ([Return] or
      [Throw]) and the world it leaves behind.  Mutations made before a
      [throw] survive it, as in JavaScript.
    - The browser and the remote service are the [World]: clock, random
      source, the two web storages, the remote [devices] table, the
      transport failures to come and the answer of the remote content query.
    - Timers are modelled by logical time stamps in milliseconds. *)

From Stdlib Require Import ZArith Bool List Lia.
From stdpp Require Import base tactics option list strings pretty gmap.

Local Open Scope string_scope.
Local Open Scope Z_scope.

(** ** Rows of the remote tables ([services/supabaseClient.ts]) *)

Inductive ContentType := text | image | video.

Record Content := mkContent {
  c_id : string;
  c_user_id : string;
  title : string;
  content_type : ContentType;
  text_content : option string;
  file_url : option string;
  duration : option Z;           (* seconds; [None] is a null column *)
  is_active : bool;
  created_at : string;
  updated_at : string
}.

Record Device := mkDevice {
  d_id : string;
  device_code : string;
  device_name : string;
  d_user_id : option string;     (* [None] is SQL null: unpaired *)
  is_online : bool;
  last_seen : string;
  wifi_ssid : option string;
  ip_address : option string
}.

(** A row of [device_content] joined with its [content] row; the joined
    content is null when the content row is not visible. *)
Record DeviceContent := mkDeviceContent {
  dc_id : string;
  display_order : Z;
  content : option Content
}.

Record Error := mkError { code : string; message : string }.

(** What [await supabase.from(..)...] gives back: a [{data, error}] object,
    or a rejected promise. *)
Inductive Response (A : Type) :=
  | Responds (data : option A) (error : option Error)
  | Rejects (e : Error).
Arguments Responds {A} data error.
Arguments Rejects {A} e.

(** ** The world *)

(** [window.localStorage]: the five keys the application uses.  The slot
    [cached_content] holds the JSON text of a playlist and is kept in parsed
    form; [cache_timestamp] holds the decimal text of [Date.now()]. *)
Record LocalStorage := mkLocal {
  ls_device_id : option string;
  ls_device_code : option string;
  ls_device_code_timestamp : option string;
  cached_content : option (list Content);
  cache_timestamp : option Z
}.

(** [window.sessionStorage]: one key. *)
Record SessionStorage := mkSession { ss_device_code : option string }.

Record World := mkWorld {
  now : Z;                                   (* Date.now(), milliseconds *)
  entropy : nat → Z;                         (* successive random draws *)
  draws : nat;                               (* how many were consumed *)
  storage_ok : bool;                         (* false: storage access throws *)
  localStorage : LocalStorage;
  sessionStorage : SessionStorage;
  outages : list bool;                       (* per remote call: true = transport failure *)
  devices : gmap string Device;              (* remote table, keyed by id *)
  content_query : string → Response (list DeviceContent);
  ip_lookup : option string                  (* answer of api.ipify.org *)
}.

Definition with_local (f : LocalStorage → LocalStorage) (w : World) : World :=
  mkWorld (now w) (entropy w) (draws w) (storage_ok w) (f (localStorage w))
          (sessionStorage w) (outages w) (devices w)
          (content_query w) (ip_lookup w).

Definition with_session (f : SessionStorage → SessionStorage) (w : World) : World :=
  mkWorld (now w) (entropy w) (draws w) (storage_ok w) (localStorage w)
          (f (sessionStorage w)) (outages w) (devices w)
          (content_query w) (ip_lookup w).

Definition with_devices (f : gmap string Device → gmap string Device) (w : World) : World :=
  mkWorld (now w) (entropy w) (draws w) (storage_ok w) (localStorage w)
          (sessionStorage w) (outages w) (f (devices w))
          (content_query w) (ip_lookup w).

Definition with_outages (f : list bool → list bool) (w : World) : World :=
  mkWorld (now w) (entropy w) (draws w) (storage_ok w) (localStorage w)
          (sessionStorage w) (f (outages w)) (devices w)
          (content_query w) (ip_lookup w).

Definition with_content_query (q : string → Response (list DeviceContent)) (w : World) : World :=
  mkWorld (now w) (entropy w) (draws w) (storage_ok w) (localStorage w)
          (sessionStorage w) (outages w) (devices w) q (ip_lookup w).

Definition with_now (t : Z) (w : World) : World :=
  mkWorld t (entropy w) (draws w) (storage_ok w) (localStorage w)
          (sessionStorage w) (outages w) (devices w)
          (content_query w) (ip_lookup w).

Definition with_draw (w : World) : World :=
  mkWorld (now w) (entropy w) (S (draws w)) (storage_ok w) (localStorage w)
          (sessionStorage w) (outages w) (devices w)
          (content_query w) (ip_lookup w).

(** ** Computations: state and exceptions *)

Inductive Completion (A : Type) :=
  | Return (a : A)
  | Throw (e : Error).
Arguments Return {A} a.
Arguments Throw {A} e.

Definition Eff (A : Type) : Type := World → Completion A * World.

Global Instance eff_ret : MRet Eff := λ A a w, (Return a, w).
Global Instance eff_bind : MBind Eff := λ A B f m w,
  match m w with
  | (Return a, w') => f a w'
  | (Throw e, w') => (Throw e, w')
  end.

Definition throw {A} (e : Error) : Eff A := λ w, (Throw e, w).

(** [try { body } catch (error) { handler }] *)
Definition try_catch {A} (body : Eff A) (handler : Error → Eff A) : Eff A := λ w,
  match body w with
  | (Return a, w') => (Return a, w')
  | (Throw e, w') => handler e w'
  end.

Definition get_world : Eff World := λ w, (Return w, w).
Definition modify (f : World → World) : Eff unit := λ w, (Return tt, f w).

(** [Math.random()] and [crypto.randomUUID()]: the next draw of the oracle. *)
Definition random : Eff Z := λ w, (Return (entropy w (draws w)), with_draw w).

Definition SecurityError : Error := mkError "SecurityError" "storage is not available".

(** Reading a storage: throws when the storage is unavailable. *)
Definition local_read {A} (slot : LocalStorage → A) : Eff A := λ w,
  if storage_ok w then (Return (slot (localStorage w)), w) else (Throw SecurityError, w).
Definition local_write (f : LocalStorage → LocalStorage) : Eff unit := λ w,
  if storage_ok w then (Return tt, with_local f w) else (Throw SecurityError, w).
Definition session_read {A} (slot : SessionStorage → A) : Eff A := λ w,
  if storage_ok w then (Return (slot (sessionStorage w)), w) else (Throw SecurityError, w).
Definition session_write (f : SessionStorage → SessionStorage) : Eff unit := λ w,
  if storage_ok w then (Return tt, with_session f w) else (Throw SecurityError, w).

Definition set_ls_device_id (v : option string) (l : LocalStorage) :=
  mkLocal v (ls_device_code l) (ls_device_code_timestamp l) (cached_content l) (cache_timestamp l).
Definition set_ls_device_code (v : option string) (l : LocalStorage) :=
  mkLocal (ls_device_id l) v (ls_device_code_timestamp l) (cached_content l) (cache_timestamp l).
Definition set_ls_device_code_timestamp (v : option string) (l : LocalStorage) :=
  mkLocal (ls_device_id l) (ls_device_code l) v (cached_content l) (cache_timestamp l).
Definition set_cached_content (v : option (list Content)) (l : LocalStorage) :=
  mkLocal (ls_device_id l) (ls_device_code l) (ls_device_code_timestamp l) v (cache_timestamp l).
Definition set_cache_timestamp (v : option Z) (l : LocalStorage) :=
  mkLocal (ls_device_id l) (ls_device_code l) (ls_device_code_timestamp l) (cached_content l) v.

(** JavaScript truthiness of a [string | null]. *)
Definition truthy (s : option string) : bool :=
  match s with
  | Some s => negb (String.eqb s "")
  | None => false
  end.

(** [new Date().toISOString()], rendered from the clock. *)
Definition toISOString (t : Z) : string := pretty t.

(** ** The remote [devices] table

    A call answers with a row or with an error object; it does not throw.
    Every call consumes the head of [outages]. *)

Inductive Single (A : Type) :=
  | Row (data : A)
  | Failed (error : Error).
Arguments Row {A} data.
Arguments Failed {A} error.

Definition NetworkError : Error := mkError "" "TypeError: Failed to fetch".
Definition NoRows : Error := mkError "PGRST116" "JSON object requested, multiple (or no) rows returned".
Definition DuplicateKey : Error := mkError "23505" "duplicate key value violates unique constraint".

Definition transport_fails : Eff bool := λ w,
  match outages w with
  | down :: rest => (Return down, with_outages (λ _, rest) w)
  | [] => (Return false, w)
  end.

(** The columns an [update] may set. *)
Record DevicePatch := mkPatch {
  p_device_code : option string;
  p_device_name : option string;
  p_is_online : option bool;
  p_last_seen : option string;
  p_ip_address : option string;
  p_wifi_ssid : option string
}.

Definition apply_patch (p : DevicePatch) (d : Device) : Device :=
  mkDevice (d_id d)
           (default (device_code d) (p_device_code p))
           (default (device_name d) (p_device_name p))
           (d_user_id d)
           (default (is_online d) (p_is_online p))
           (default (last_seen d) (p_last_seen p))
           (from_option Some (wifi_ssid d) (p_wifi_ssid p))
           (from_option Some (ip_address d) (p_ip_address p)).

(** [from('devices').select('*').eq('id', id).single()] *)
Definition select_device (id : string) : Eff (Single Device) :=
  down ← transport_fails;
  if (down : bool) then mret (Failed NetworkError)
  else
    w ← get_world;
    match devices w !! id with
    | Some d => mret (Row d)
    | None => mret (Failed NoRows)
    end.

(** [from('devices').update(patch).eq('id', id).select().single()] *)
Definition update_device (id : string) (patch : DevicePatch) : Eff (Single Device) :=
  down ← transport_fails;
  if (down : bool) then mret (Failed NetworkError)
  else
    w ← get_world;
    match devices w !! id with
    | Some d =>
        let d' := apply_patch patch d in
        modify (with_devices (insert id d'));; mret (Row d')
    | None => mret (Failed NoRows)
    end.

(** [from('devices').update(patch).eq('id', id)] without [select()]: no
    row is asked back, and matching no row is not an error. *)
Definition update_device_rows (id : string) (patch : DevicePatch) : Eff (Single unit) :=
  down ← transport_fails;
  if (down : bool) then mret (Failed NetworkError)
  else
    w ← get_world;
    match devices w !! id with
    | Some d => modify (with_devices (insert id (apply_patch patch d)));; mret (Row tt)
    | None => mret (Row tt)
    end.

(** [from('devices').insert([row]).select().single()]; [id] is the
    primary key. *)
Definition insert_device (row : Device) : Eff (Single Device) :=
  down ← transport_fails;
  if (down : bool) then mret (Failed NetworkError)
  else
    w ← get_world;
    match devices w !! d_id row with
    | Some _ => mret (Failed DuplicateKey)
    | None => modify (with_devices (insert (d_id row) row));; mret (Row row)
    end.

(** Modelled from the spec: the server-side procedure [refresh_device_code]
    is not part of the sources.  The design document gives it as
    [setCode(deviceId, code) -> ok|error]: it sets the code of the record
    of [deviceId] and nothing else; without such a record it reports
    failure. *)
Definition rpc_refresh_device_code (p_device_id p_new_code : string) : Eff (Single bool) :=
  down ← transport_fails;
  if (down : bool) then mret (Failed NetworkError)
  else
    w ← get_world;
    match devices w !! p_device_id with
    | Some d =>
        let d' := apply_patch (mkPatch (Some p_new_code) None None None None None) d in
        modify (with_devices (insert p_device_id d'));; mret (Row true)
    | None => mret (Row false)
    end.

(** ** [DeviceService]: identity and pairing code *)

Module DeviceService.

(** [Math.floor(100000 + Math.random() * 900000).toString()]: the draw
    [r] stands for the integer part of [Math.random() * 900000]. *)
Definition generateDeviceCode : Eff string :=
  r ← random; mret (pretty (100000 + r `mod` 900000)).

Definition getDeviceId : Eff string :=
  try_catch
    (local_write (set_ls_device_code None);;
     local_write (set_ls_device_code_timestamp None);;
     deviceId ← local_read ls_device_id;
     if truthy deviceId then mret (default "" deviceId)
     else
       r ← random;
       let deviceId := "uuid-" +:+ pretty r in
       local_write (set_ls_device_id (Some deviceId));;
       mret deviceId)
    (λ _, r ← random; mret ("fallback-" +:+ pretty r)).

Definition getDeviceCode : Eff string :=
  try_catch
    (deviceCode ← session_read ss_device_code;
     if negb (truthy deviceCode) then
       deviceCode ← generateDeviceCode;
       session_write (λ _, mkSession (Some deviceCode));;
       mret deviceCode
     else mret (default "" deviceCode))
    (λ _, generateDeviceCode).

(** [refreshDeviceCode]: force a new code ([setItem] is not guarded). *)
Definition refreshDeviceCode : Eff string :=
  deviceCode ← generateDeviceCode;
  session_write (λ _, mkSession (Some deviceCode));;
  mret deviceCode.

(** [getIPAddress]: the lookup answers or the fallback text is used. *)
Definition getIPAddress : Eff string :=
  w ← get_world; mret (default "Unknown" (ip_lookup w)).

Definition updateDeviceCode : Eff unit :=
  deviceId ← getDeviceId;
  deviceCode ← getDeviceCode;
  try_catch
    (r ← rpc_refresh_device_code deviceId deviceCode;
     match r with
     | Failed e => throw e
     | Row success =>
         if (success : bool) then mret tt
         else throw (mkError "" "Failed to update device code")
     end)
    (λ e, throw e).

(** The branch of [registerDevice] for a device that exists. *)
Definition registerDevice_update (deviceId deviceCode : string) (existingDevice : Device) : Eff Device :=
  ip ← getIPAddress;
  w ← get_world;
  let updateData :=
    mkPatch (Some deviceCode)
            (* Only reset device name if device is not paired *)
            (if truthy (d_user_id existingDevice) then None
             else Some ("Pi Display " +:+ deviceCode))
            (Some true) (Some (toISOString (now w))) (Some ip) (Some "Connected") in
  r ← update_device deviceId updateData;
  match r with
  | Failed e => throw e
  | Row data => mret data
  end.

(** The branch that creates the device; on a duplicate key it updates
    instead. *)
Definition registerDevice_create (deviceId deviceCode : string) : Eff Device :=
  ip ← getIPAddress;
  w ← get_world;
  r ← insert_device
        (mkDevice deviceId deviceCode ("Pi Display " +:+ deviceCode) None true
                  (toISOString (now w)) (Some "Connected") (Some ip));
  match r with
  | Row data => mret data
  | Failed e =>
      if String.eqb (code e) "23505" then
        ip ← getIPAddress;
        w ← get_world;
        r ← update_device deviceId
              (mkPatch (Some deviceCode) None (Some true)
                       (Some (toISOString (now w))) (Some ip) (Some "Connected"));
        match r with
        | Failed updateError => throw updateError
        | Row updateData => mret updateData
        end
      else throw e
  end.

Definition registerDevice : Eff Device :=
  deviceId ← getDeviceId;
  deviceCode ← getDeviceCode;
  try_catch
    (check ← select_device deviceId;
     match check with
     | Row existingDevice => registerDevice_update deviceId deviceCode existingDevice
     | Failed _ => registerDevice_create deviceId deviceCode
     end)
    (λ e, throw e).

(** The handshake payload (the object given to [JSON.stringify]). *)
Record QRCodeData := mkQR {
  qr_type : string;
  qr_device_code : string;
  qr_device_id : string;
  qr_timestamp : Z
}.

Definition generateQRCodeData : Eff QRCodeData :=
  deviceCode ← getDeviceCode;
  deviceId ← getDeviceId;
  w ← get_world;
  mret (mkQR "pi_board_device" deviceCode deviceId (now w)).

(** [updateDeviceStatus]: the answer of the update is not looked at. *)
Definition updateDeviceStatus (isOnline : bool) : Eff unit :=
  deviceId ← getDeviceId;
  try_catch
    (w ← get_world;
     update_device_rows deviceId
       (mkPatch None None (Some isOnline) (Some (toISOString (now w))) None None);;
     mret tt)
    (λ _, mret tt).

(** [isDevicePaired]: of the selected row only [user_id] is used. *)
Definition isDevicePaired : Eff bool :=
  deviceId ← getDeviceId;
  try_catch
    (r ← select_device deviceId;
     match r with
     | Failed _ => mret false
     | Row data => mret (truthy (d_user_id data))
     end)
    (λ _, mret false).

Definition getDeviceInfo : Eff (option Device) :=
  deviceId ← getDeviceId;
  try_catch
    (r ← select_device deviceId;
     match r with
     | Failed _ => mret None
     | Row data => mret (Some data)
     end)
    (λ _, mret None).

End DeviceService.

(** ** [ContentService]: fetch, cache, fallback *)

Module ContentService.

(** [await p]: a rejected promise throws at the [await]. *)
Definition await {A} (r : Response A) : Eff (option A * option Error) :=
  match r with
  | Responds data error => mret (data, error)
  | Rejects e => throw e
  end.

(** The query on [device_content] for [deviceId], active rows by ascending
    [display_order]: answered by the world. *)
Definition select_device_content (deviceId : string) : Eff (option (list DeviceContent) * option Error) :=
  w ← get_world; await (content_query w deviceId).

Definition getDeviceContent : Eff (list Content) :=
  deviceId ← DeviceService.getDeviceId;
  try_catch
    ('(data, error) ← select_device_content deviceId;
     match error with
     | Some e => throw e
     | None =>
         (* data?.map(item => item.content).filter(Boolean) || [] *)
         mret (match data with
               | Some rows => omap content rows
               | None => []
               end)
     end)
    (λ _, mret []).

Definition cacheContent (items : list Content) : Eff unit :=
  try_catch
    (local_write (set_cached_content (Some items));;
     w ← get_world;
     local_write (set_cache_timestamp (Some (now w))))
    (λ _, mret tt).

Definition getCachedContent : Eff (list Content) :=
  try_catch
    (cached ← local_read cached_content;
     mret (default [] cached))
    (λ _, mret []).

(** Less than one hour old. *)
Definition isCacheValid : Eff bool :=
  try_catch
    (timestamp ← local_read cache_timestamp;
     match timestamp with
     | Some t => w ← get_world; mret (bool_decide (now w - t < 60 * 60 * 1000))
     | None => mret false
     end)
    (λ _, mret false).

Definition defaultContent (deviceCode stamp : string) : list Content :=
  [ mkContent "default-welcome" "" "Welcome to PiBoard Innovators" text
      (Some "🚀 Digital Signage Revolution

Transforming communication through innovative display technology

Connect • Display • Engage")
      None (Some 12) true stamp stamp;
    mkContent "default-features" "" "Powered by Innovation" text
      (Some "✨ Real-time Content Updates
📱 Mobile App Control
🎨 Rich Media Support
🔄 Seamless Synchronization

Your content, everywhere, instantly")
      None (Some 10) true stamp stamp;
    mkContent "default-pairing" "" "Ready to Connect" text
      (Some ("📲 Device Code: " +:+ deviceCode +:+ "

🔗 Open your PiBoard mobile app
📝 Enter the device code above
🎯 Start sending amazing content!

Let's make your display come alive!"))
      None (Some 15) true stamp stamp ].

Definition getDefaultContent : Eff (list Content) :=
  w ← get_world;
  deviceCode ← DeviceService.getDeviceCode;
  mret (defaultContent deviceCode (toISOString (now w))).

(** The body of [getContentWithFallback] gives [Some playlist] where the
    source returns inside [try]/[catch] and [None] where it falls through
    to the final [return this.getDefaultContent()]. *)
Definition fetchFresh : Eff (option (list Content)) :=
  freshContent ← getDeviceContent;
  if bool_decide (0 < length freshContent)%nat then
    cacheContent freshContent;; mret (Some freshContent)
  else mret None.

(** The [try] block. *)
Definition getContentWithFallback_try : Eff (option (list Content)) :=
  valid ← isCacheValid;
  if (valid : bool) then
    cachedContent ← getCachedContent;
    if bool_decide (0 < length cachedContent)%nat then mret (Some cachedContent)
    else fetchFresh
  else fetchFresh.

(** The [catch] block: try cached content even if expired in case of
    network issues. *)
Definition getContentWithFallback_catch (error : Error) : Eff (option (list Content)) :=
  cachedContent ← getCachedContent;
  if bool_decide (0 < length cachedContent)%nat then mret (Some cachedContent)
  else mret None.

Definition getContentWithFallback : Eff (list Content) :=
  returned ← try_catch getContentWithFallback_try getContentWithFallback_catch;
  match returned with
  | Some playlist => mret playlist
  | None => getDefaultContent
  end.

(** [preloadMedia]: starts loading every image whose [file_url] is truthy
    (neither absent nor empty); gives the URLs requested. *)
Definition preloadMedia (items : list Content) : Eff (list string) :=
  let mediaContent :=
    filter (λ c, match content_type c with
                 | image | video => true
                 | text => false
                 end && truthy (file_url c) = true) items in
  mret (omap (λ c, match content_type c with
                   | image => if truthy (file_url c) then file_url c else None
                   | _ => None
                   end) mediaContent).

End ContentService.

(** ** [useContentSubscription]: the playlist handed to the display *)

Module ContentHook.

Record HookState := mkHook {
  hk_content : list Content;
  loading : bool;
  error : option string
}.

Definition initial : HookState := mkHook [] true None.

(** The callback given to [subscribeToContentUpdates] runs on every
    debounced refresh with the playlist just fetched.  Its state setters
    come first ... *)
Definition onContentUpdate_state (newContent : list Content) : Eff HookState :=
  if bool_decide (0 < length newContent)%nat then
    mret (mkHook newContent false None)
  else
    d ← ContentService.getDefaultContent;
    mret (mkHook d false None).

(** ... then the cache is written, or cleared when there is no content;
    [removeItem] is not guarded. *)
Definition onContentUpdate_storage (newContent : list Content) : Eff unit :=
  if bool_decide (0 < length newContent)%nat then
    ContentService.cacheContent newContent;;
    ContentService.preloadMedia newContent;;
    mret tt
  else
    (* Clear cache when no content *)
    local_write (set_cached_content None);;
    local_write (set_cache_timestamp None).

Definition onContentUpdate (newContent : list Content) : Eff HookState :=
  h ← onContentUpdate_state newContent;
  onContentUpdate_storage newContent;;
  mret h.

Definition loadContent (h : HookState) : Eff HookState :=
  h' ← try_catch
    (freshContent ← ContentService.getDeviceContent;
     if bool_decide (0 < length freshContent)%nat then
       ContentService.cacheContent freshContent;;
       ContentService.preloadMedia freshContent;;
       mret (mkHook freshContent true None)
     else
       d ← ContentService.getDefaultContent;
       mret (mkHook d true None))
    (λ _,
       cachedContent ← ContentService.getCachedContent;
       valid ← (if bool_decide (0 < length cachedContent)%nat
                then ContentService.isCacheValid else mret false);
       if (valid : bool) then mret (mkHook cachedContent true (Some "Using cached content (offline)"))
       else
         d ← ContentService.getDefaultContent;
         mret (mkHook d true (Some "Failed to load content")));
  (* finally *)
  mret (mkHook (hk_content h') false (error h')).

(** The effect on [isPaired]. *)
Definition onPairedChange (isPaired : bool) (h : HookState) : Eff HookState :=
  if negb isPaired then
    d ← ContentService.getDefaultContent;
    mret (mkHook d false (error h))
  else loadContent h.

(** The timer body of the debounced refresh: fetch, then the callback.
    An error is caught and logged; state set before it stays. *)
Definition refresh (h : HookState) : Eff HookState :=
  try_catch
    (items ← ContentService.getDeviceContent;
     h' ← onContentUpdate_state items;
     try_catch (onContentUpdate_storage items;; mret h') (λ _, mret h'))
    (λ _, mret h).

End ContentHook.

(** What is handed to the display on a (re)fetch: the unpaired gate of
    [useContentSubscription] in front of [getContentWithFallback]. *)
Definition resolveCurrentContent (isPaired : bool) : Eff (list Content) :=
  if negb isPaired then ContentService.getDefaultContent
  else ContentService.getContentWithFallback.

(** ** [subscribeToContentUpdates]: the debounce timer of one subscription *)

Module ContentSubscription.

(** The two change streams the channel listens to. *)
Inductive Stream := device_content_changes | content_changes.

Record Subscription := mkSubscription {
  debounceTimer : option Z;    (* due time of the pending timeout *)
  refreshes : list Z           (* times at which the timeout ran, oldest first *)
}.

Definition subscribed : Subscription := mkSubscription None [].

(** The pending timeout runs: one [getDeviceContent] and one callback
    ([ContentHook.refresh]). *)
Definition timeout (s : Subscription) : Subscription :=
  match debounceTimer s with
  | Some due => mkSubscription None (refreshes s ++ [due])
  | None => s
  end.

(** Time passes until [t]: a timeout that is due runs. *)
Definition elapse (t : Z) (s : Subscription) : Subscription :=
  match debounceTimer s with
  | Some due => if due <=? t then timeout s else s
  | None => s
  end.

(** [fetchAndCallback] at time [t]: [clearTimeout] then [setTimeout(.., 500)]. *)
Definition fetchAndCallback (t : Z) (s : Subscription) : Subscription :=
  mkSubscription (Some (t + 500)) (refreshes s).

(** A change notification on either stream at time [t]. *)
Definition notify (t : Z) (on : Stream) (s : Subscription) : Subscription :=
  match on with
  | device_content_changes => fetchAndCallback t (elapse t s)
  | content_changes => fetchAndCallback t (elapse t s)
  end.

Definition run (events : list (Z * Stream)) (s : Subscription) : Subscription :=
  foldl (λ s e, notify e.1 e.2 s) s events.

(** Consecutive notifications of a burst are less than 500 ms apart. *)
Fixpoint burst (t : Z) (later : list (Z * Stream)) : Prop :=
  match later with
  | [] => True
  | e :: later' => t <= e.1 ∧ e.1 < t + 500 ∧ burst e.1 later'
  end.

(** Consecutive notifications are at least 500 ms apart. *)
Fixpoint isolated (t : Z) (later : list (Z * Stream)) : Prop :=
  match later with
  | [] => True
  | e :: later' => t + 500 <= e.1 ∧ isolated e.1 later'
  end.

Definition last_time (t : Z) (later : list (Z * Stream)) : Z :=
  default t (last (t :: map fst later)).

(** The refreshes that have run or are pending. *)
Definition scheduled (s : Subscription) : list Z :=
  (refreshes s ++ match debounceTimer s with Some due => [due] | None => [] end)%list.

End ContentSubscription.

(** ** [ContentDisplay]: the display scheduler *)

Module ContentDisplay.

Inductive Direction := forward | backward.

(** A pending [setTimeout(.., 300)] of a transition.  Its closure holds the
    playlist length of the render that created it; it is not kept in
    [timerRef] and nothing cancels it. *)
Record Commit := mkCommit {
  due : Z;
  direction : Direction;
  captured_length : Z
}.

Record Display := mkDisplay {
  playlist : list Content;       (* the [content] prop *)
  currentIndex : Z;
  isTransitioning : bool;
  timerRef : option (Z * Z);     (* pending item timer: due time, [content.length] it closed over *)
  commits : list Commit;         (* pending transition timeouts, oldest first *)
  clock : Z
}.

Definition set_playlist (c : list Content) (s : Display) :=
  mkDisplay c (currentIndex s) (isTransitioning s) (timerRef s) (commits s) (clock s).
Definition set_currentIndex (i : Z) (s : Display) :=
  mkDisplay (playlist s) i (isTransitioning s) (timerRef s) (commits s) (clock s).
Definition set_isTransitioning (b : bool) (s : Display) :=
  mkDisplay (playlist s) (currentIndex s) b (timerRef s) (commits s) (clock s).
Definition set_timerRef (r : option (Z * Z)) (s : Display) :=
  mkDisplay (playlist s) (currentIndex s) (isTransitioning s) r (commits s) (clock s).
Definition set_commits (l : list Commit) (s : Display) :=
  mkDisplay (playlist s) (currentIndex s) (isTransitioning s) (timerRef s) l (clock s).
Definition set_clock (t : Z) (s : Display) :=
  mkDisplay (playlist s) (currentIndex s) (isTransitioning s) (timerRef s) (commits s) t.

Definition content_length (s : Display) : Z := Z.of_nat (length (playlist s)).

(** [content[currentIndex]]; [None] is [undefined]. *)
Definition currentContent (s : Display) : option Content :=
  if currentIndex s <? 0 then None else playlist s !! Z.to_nat (currentIndex s).

(** [(currentContent?.duration || 10) * 1000] *)
Definition item_delay (c : option Content) : Z :=
  match c ≫= duration with
  | Some d => if d =? 0 then 10 else d
  | None => 10
  end * 1000.

(** The conversion of a number to a 32-bit signed integer (a Web IDL
    [long]): the value modulo [2^32], taken in [-2^31 .. 2^31 - 1]. *)
Definition to_int32 (z : Z) : Z := (z + 2147483648) `mod` 4294967296 - 2147483648.

(** The time [setTimeout(.., ms)] waits in the browser.  The delay is a
    Web IDL [long]: the number is converted to a 32-bit signed integer,
    and a negative delay counts as zero.  So a delay of 2147483648 ms up
    to 4294967295 ms is not waited for: the callback runs at once (as it
    does in Node.js, for every delay past 2147483647 ms). *)
Definition setTimeout_delay (ms : Z) : Z := Z.max 0 (to_int32 ms).

(** [startTimer] of the effect: [setTimeout(.., duration)] into
    [timerRef]. *)
Definition startTimer (s : Display) : Display :=
  set_timerRef (Some (clock s + setTimeout_delay (item_delay (currentContent s)),
                      content_length s)) s.

(** The effect on [currentIndex, content, currentContent]: the cleanup of
    the previous run clears the item timer, then the effect runs again. *)
Definition effect (s : Display) : Display :=
  let s := set_timerRef None s in
  if content_length s =? 0 then s else startTimer s.

Definition mount (c : list Content) (t : Z) : Display :=
  effect (mkDisplay c 0 false None [] t).

(** A new [content] prop (a new array) at the current time. *)
Definition setContent (c : list Content) (s : Display) : Display :=
  effect (set_playlist c s).

(** The shared body of the item timer, [nextContent] and [previousContent],
    for the length [len] its closure sees. *)
Definition transition (d : Direction) (len : Z) (s : Display) : Display :=
  if len <=? 1 then s
  else set_commits (commits s ++ [mkCommit (clock s + 300) d len])
                   (set_isTransitioning true s).

Definition nextContent (s : Display) : Display := transition forward (content_length s) s.
Definition previousContent (s : Display) : Display := transition backward (content_length s) s.

(** The navigation buttons exist when an item is shown and the playlist
    has more than one item; they are disabled during a transition. *)
Definition buttons_enabled (s : Display) : bool :=
  bool_decide (is_Some (currentContent s)) && (1 <? content_length s) && negb (isTransitioning s).
Definition clickNext (s : Display) : Display :=
  if buttons_enabled s then nextContent s else s.
Definition clickPrevious (s : Display) : Display :=
  if buttons_enabled s then previousContent s else s.

(** The updater given to [setCurrentIndex]. *)
Definition advance (d : Direction) (len prev : Z) : Z :=
  match d with
  | forward => Z.rem (prev + 1) len
  | backward => Z.rem (prev - 1 + len) len
  end.

(** The item timer runs. *)
Definition fire_timer (s : Display) : Display :=
  match timerRef s with
  | Some (t, len) => transition forward len (set_clock t (set_timerRef None s))
  | None => s
  end.

(** The oldest transition timeout runs; the effect runs again when
    [currentIndex] changed. *)
Definition fire_commit (s : Display) : Display :=
  match commits s with
  | c :: rest =>
      let i := advance (direction c) (captured_length c) (currentIndex s) in
      let s' := set_isTransitioning false (set_currentIndex i
                  (set_clock (due c) (set_commits rest s))) in
      if i =? currentIndex s then s' else effect s'
  | [] => s
  end.

(** The next timer that is due runs (a transition timeout before an item
    timer of the same due time); without a pending timer nothing happens. *)
Definition tick (s : Display) : Display :=
  match commits s, timerRef s with
  | c :: _, Some (t, _) => if due c <=? t then fire_commit s else fire_timer s
  | _ :: _, None => fire_commit s
  | [], Some _ => fire_timer s
  | [], None => s
  end.

(** The time of the next timer, if any. *)
Definition next_due (s : Display) : option Z :=
  match commits s, timerRef s with
  | c :: _, Some (t, _) => Some (Z.min (due c) t)
  | c :: _, None => Some (due c)
  | [], Some (t, _) => Some t
  | [], None => None
  end.

(** What can happen to a mounted display while its playlist stays the
    same: a timer runs, time passes up to the next timer, the user
    navigates, a video ends or fails. *)
Inductive step : Display → Display → Prop :=
  | step_tick s : step s (tick s)
  | step_wait s t :
      clock s <= t → (∀ d, next_due s = Some d → t <= d) → step s (set_clock t s)
  | step_clickNext s : step s (clickNext s)
  | step_clickPrevious s : step s (clickPrevious s)
  | step_video s : step s (nextContent s).

Inductive reachable (c : list Content) : Display → Prop :=
  | reach_mount t : reachable c (mount c t)
  | reach_step s s' : reachable c s → step s s' → reachable c s'.

(** The state in which item [i] of [c] has been on display since [t]. *)
Definition showing (c : list Content) (i t : Z) : Display :=
  mkDisplay c i false
            (Some (t + setTimeout_delay (item_delay (if i <? 0 then None else c !! Z.to_nat i)),
                   Z.of_nat (length c)))
            [] t.

(** [0 ≤ currentIndex < content.length] for a playlist that is not
    empty. *)
Definition index_in_range (s : Display) : Prop :=
  playlist s ≠ [] → 0 <= currentIndex s < content_length s.

(** What holds of every state of a display whose playlist stays [c]. *)
Definition fixed_playlist_inv (c : list Content) (s : Display) : Prop :=
  playlist s = c
  ∧ 0 <= currentIndex s
  ∧ (c ≠ [] → currentIndex s < Z.of_nat (length c))
  ∧ Forall (λ cm, captured_length cm = Z.of_nat (length c) ∧ 2 <= captured_length cm)
           (commits s)
  ∧ (∀ t len, timerRef s = Some (t, len) → len = Z.of_nat (length c)).

(** The same with a new [content] prop among the events. *)
Inductive reachable_with_sync : Display → Prop :=
  | sync_mount c t : reachable_with_sync (mount c t)
  | sync_step s s' : reachable_with_sync s → step s s' → reachable_with_sync s'
  | sync_setContent c s : reachable_with_sync s → reachable_with_sync (setContent c s).

(** The reading of the reset rule under test: a new playlist puts
    [currentIndex] back to 0. *)
Definition index_reset_on_sync (old new : list Content) : Prop :=
  ∀ s, reachable old s → currentIndex (setContent new s) = 0.

End ContentDisplay.

(** ** [DevicePairing]: the pairing screen *)

Module DevicePairing.

Record Pairing := mkPairing {
  deviceCode : string;
  qrData : option DeviceService.QRCodeData;
  isPaired : bool;
  device : option Device;
  countdown : Z
}.

Definition initial : Pairing := mkPairing "" None false None 600.

(** [refreshDeviceCode], the body of [setInterval(.., 600000)].  The
    setters run before the [await]; an error of [updateDeviceCode] is
    caught after them. *)
Definition refreshDeviceCode (p : Pairing) : Eff Pairing :=
  try_catch
    ((* Only refresh if not paired *)
     if negb (isPaired p) then
       code ← DeviceService.getDeviceCode;
       qr ← DeviceService.generateQRCodeData;
       let p' := mkPairing code (Some qr) (isPaired p) (device p) 600 in
       try_catch
         ((* Update database with new code *)
          DeviceService.updateDeviceCode;; mret p')
         (λ _, mret p')
     else mret p)
    (λ _, mret p).

(** The click handler of the button that refreshes the code. *)
Definition clickRefreshCode (p : Pairing) : Eff Pairing :=
  try_catch
    (code ← DeviceService.refreshDeviceCode;
     DeviceService.updateDeviceCode;;
     qr ← DeviceService.generateQRCodeData;
     mret (mkPairing code (Some qr) (isPaired p) (device p) (countdown p)))
    (λ _, mret p).

(** The body of [setInterval(.., 1000)]. *)
Definition countdownTick (p : Pairing) : Pairing :=
  if negb (isPaired p) then
    mkPairing (deviceCode p) (qrData p) (isPaired p) (device p)
              (if countdown p <=? 1 then 600 else countdown p - 1)
  else p.

(** The callback of [subscribeToDevicePairing]: [paired] is
    [!!device.user_id] of the new record. *)
Definition onPairingUpdate (deviceInfo : Device) (p : Pairing) : Pairing :=
  let paired := truthy (d_user_id deviceInfo) in
  if negb (Bool.eqb paired (isPaired p)) then
    mkPairing (deviceCode p) (qrData p) paired
              (if paired then Some deviceInfo else None) (countdown p)
  else p.

(** [checkPairingStatus], the body of [setInterval(.., 5000)]; the second
    component is the record handed to [onPaired], if it was called. *)
Definition checkPairingStatus (p : Pairing) : Eff (Pairing * option Device) :=
  try_catch
    (paired ← DeviceService.isDevicePaired;
     if negb (Bool.eqb paired (isPaired p)) then
       if (paired : bool) then
         deviceInfo ← DeviceService.getDeviceInfo;
         match deviceInfo with
         | Some info =>
             mret (mkPairing (deviceCode p) (qrData p) true (Some info) (countdown p),
                   Some info)
         | None => mret (p, None)
         end
       else mret (mkPairing (deviceCode p) (qrData p) false None (countdown p), None)
     else mret (p, None))
    (λ _, mret (p, None)).

End DevicePairing.

(** ** [useDeviceStatus]: what [App] knows of the device *)

Module DeviceStatus.

Record Status := mkStatus {
  device : option Device;
  isPaired : bool;
  isOnline : bool;
  loading : bool
}.

Definition initial : Status := mkStatus None false true true.

(** [initializeDevice]; [onLine] is [navigator.onLine].  Only
    [registerDevice] can throw, before any setter but [setLoading(true)]. *)
Definition initializeDevice (onLine : bool) (s : Status) : Eff Status :=
  let s := mkStatus (device s) (isPaired s) (isOnline s) true in
  s' ← try_catch
    (DeviceService.registerDevice;;
     paired ← DeviceService.isDevicePaired;
     dev ← (if (paired : bool) then DeviceService.getDeviceInfo else mret (device s));
     mret (mkStatus dev paired onLine true))
    (λ _, mret s);
  (* finally *)
  mret (mkStatus (device s') (isPaired s') (isOnline s') false).

(** The callback of [subscribeToDevicePairing]. *)
Definition onPairingUpdate (deviceInfo : Device) (s : Status) : Status :=
  let paired := truthy (d_user_id deviceInfo) in
  mkStatus (if paired then Some deviceInfo else None) paired (isOnline s) (loading s).

Definition handlePaired (deviceInfo : Device) (s : Status) : Status :=
  mkStatus (Some deviceInfo) true (isOnline s) (loading s).

(** The heartbeat: only sends the status, does not fetch. *)
Definition updateStatus (onLine : bool) : Eff unit :=
  try_catch
    (if onLine then DeviceService.updateDeviceStatus true else mret tt)
    (λ _, mret tt).

Definition handleOffline (s : Status) : Eff Status :=
  DeviceService.updateDeviceStatus false;;
  mret (mkStatus (device s) (isPaired s) false (loading s)).

End DeviceStatus.

(** ** Observations used in the statements *)

(** The built-in playlist, for some device code and time stamp. *)
Definition is_default (l : list Content) : Prop :=
  ∃ deviceCode stamp, l = ContentService.defaultContent deviceCode stamp.

(** What the cache holds, and whether it is less than an hour old. *)
Definition cached_playlist (w : World) : list Content :=
  match ContentService.getCachedContent w with
  | (Return l, _) => l
  | (Throw _, _) => []
  end.

Definition cache_fresh (w : World) : bool :=
  match ContentService.isCacheValid w with
  | (Return b, _) => b
  | (Throw _, _) => false
  end.

(** The answer of the remote query for this device. *)
Definition remote_answer (w : World) : Response (list DeviceContent) :=
  match DeviceService.getDeviceId w with
  | (Return deviceId, _) => content_query w deviceId
  | (Throw e, _) => Rejects e
  end.

(** What [getDeviceContent] makes of each answer. *)
Definition fetched (r : Response (list DeviceContent)) : list Content :=
  match r with
  | Responds (Some rows) None => omap content rows
  | _ => []
  end.

(** The remote playlist, when the query succeeds. *)
Definition remote_playlist (w : World) : option (list Content) :=
  match remote_answer w with
  | Responds (Some rows) None => Some (omap content rows)
  | _ => None
  end.

(** The query fails: an error object or a rejected promise. *)
Definition fetch_fails (w : World) : Prop :=
  match remote_answer w with
  | Responds _ (Some _) => True
  | Rejects _ => True
  | Responds _ None => False
  end.

(** Every row of the remote table is stored under its [id]. *)
Definition keyed_by_id (table : gmap string Device) : Prop :=
  ∀ k d, table !! k = Some d → d_id d = k.

(** From [w] to [w'] every paired record keeps its name and its owner. *)
Definition names_kept (w w' : World) : Prop :=
  ∀ id d, devices w !! id = Some d → truthy (d_user_id d) = true →
    ∃ d', devices w' !! id = Some d'
          ∧ device_name d' = device_name d ∧ d_user_id d' = d_user_id d.

(** What the storages hold is untouched. *)
Definition same_storage (w w' : World) : Prop :=
  storage_ok w' = storage_ok w ∧ localStorage w' = localStorage w
  ∧ sessionStorage w' = sessionStorage w.

(** What a registration did to the record of [id], holding [d0] before
    ([None]: no record) and [d] afterwards. *)
Definition registered (id code : string) (d0 : option Device) (d : Device) : Prop :=
  device_code d = code ∧ is_online d = true
  ∧ match d0 with
    | Some old =>
        d_id d = d_id old ∧ d_user_id d = d_user_id old
        ∧ (device_name d = device_name old
           ∨ (truthy (d_user_id old) = false ∧ device_name d = "Pi Display " +:+ code))
    | None =>
        d_id d = id ∧ d_user_id d = None ∧ device_name d = "Pi Display " +:+ code
    end.

(** The result of a computation that returns. *)
Definition returns {A} (m : Eff A) (w : World) (a : A) : Prop :=
  ∃ w', m w = (Return a, w').

(** The reading of the resolution rule under test: the built-in playlist
    exactly when unpaired, or paired with nothing remote and nothing
    cached. *)
Definition default_iff_nothing_available (isPaired : bool) (w : World) : Prop :=
  ∀ remote result,
    remote_playlist w = Some remote →
    returns (resolveCurrentContent isPaired) w result →
    (is_default result ↔
       isPaired = false ∨ (isPaired = true ∧ remote = [] ∧ cached_playlist w = [])).

(** The reading of the registration rule under test: the first
    registration names the record ["Display {code}"]. *)
Definition first_name_is_display_code (w : World) : Prop :=
  ∀ d w', devices w = ∅ → DeviceService.registerDevice w = (Return d, w') →
    device_name d = "Display " +:+ device_code d.

(** Two registrations in a row concern the same device id. *)
Definition same_id_twice (w : World) : Prop :=
  ∀ d1 w1 d2 w2,
    DeviceService.registerDevice w = (Return d1, w1) →
    DeviceService.registerDevice w1 = (Return d2, w2) →
    d_id d2 = d_id d1.

(** ** Worlds for the examples *)

Definition item (id : string) (seconds : Z) : Content :=
  mkContent id "owner-1" id text (Some id) None (Some seconds) true "t0" "t0".

Definition no_content : string → Response (list DeviceContent) :=
  λ _, Responds (Some []) None.

Definition empty_local : LocalStorage := mkLocal None None None None None.

Definition hour : Z := 60 * 60 * 1000.

(** A random source that starts with the given draws. *)
Definition draws_from (l : list Z) : nat → Z := λ n, default 0 (l !! n).

(** A device with working storage, identity [dev-1] and session code
    [123456]; the remote service answers. *)
Definition world0 : World :=
  mkWorld 10000000 (draws_from [554321; 98765; 700000; 41]) 0 true
          (mkLocal (Some "dev-1") None None None None)
          (mkSession (Some "123456"))
          [] ∅ no_content (Some "10.0.0.7").

(** Paired device whose cache holds [[x]], written two hours ago; the
    remote playlist is empty. *)
Definition world_stale_cache : World :=
  with_local (λ l, set_cache_timestamp (Some (now world0 - 2 * hour))
                     (set_cached_content (Some [item "x" 5]) l)) world0.

(** The same cache, and a remote query that fails. *)
Definition world_fetch_error : World :=
  with_content_query (λ _, Responds None (Some NetworkError)) world_stale_cache.

Definition world_fetch_rejected : World :=
  with_content_query (λ _, Rejects NetworkError) world_stale_cache.

(** A cache written ten minutes ago; the remote playlist is empty. *)
Definition world_fresh_cache : World :=
  with_local (λ l, set_cache_timestamp (Some (now world0 - 600000))
                     (set_cached_content (Some [item "x" 5]) l)) world0.

(** The remote playlist is [[y; z]]; the cache is empty. *)
Definition world_remote_content : World :=
  with_content_query
    (λ _, Responds (Some [mkDeviceContent "b1" 1 (Some (item "y" 5));
                          mkDeviceContent "b2" 2 (Some (item "z" 7))]) None) world0.

(** The storages cannot be used (private mode, quota, policy). *)
Definition world_no_storage : World :=
  mkWorld 10000000 (draws_from [554321; 98765; 700000; 41]) 0 false
          empty_local (mkSession None) [] ∅ no_content (Some "10.0.0.7").

(** The record of [dev-1] exists and is owned by [user-9]. *)
Definition paired_record : Device :=
  mkDevice "dev-1" "123456" "Lobby screen" (Some "user-9") true "t0"
           (Some "Connected") (Some "10.0.0.7").

Definition world_paired : World := with_devices (insert "dev-1" paired_record) world0.

(** The record of [dev-1] exists and has no owner. *)
Definition unpaired_record : Device :=
  mkDevice "dev-1" "123456" "Pi Display 123456" None true "t0"
           (Some "Connected") (Some "10.0.0.7").

Definition world_unpaired : World := with_devices (insert "dev-1" unpaired_record) world0.

(** The pairing screen of [dev-1], one second before the countdown ends. *)
Definition pairing_screen : DevicePairing.Pairing :=
  DevicePairing.mkPairing "123456" None false None 1.

Definition abc : list Content := [item "a" 2; item "b" 3; item "c" 4].

(** An item of 3,000,000 s, whose delay of 3,000,000,000 ms is past the
    timer's 2,147,483,647 ms, and an item whose duration is 0. *)
Definition long_then_zero : list Content := [item "long" 3000000; item "zero" 0].

(** Item [b] of [abc] is on display. *)
Definition showing_b : ContentDisplay.Display :=
  ContentDisplay.tick (ContentDisplay.tick (ContentDisplay.mount abc 0)).

(** * Properties *)

(** Unfolds the monad and the storage primitives. *)
Ltac eff_unfold :=
  unfold mbind, eff_bind, mret, eff_ret, try_catch, throw, get_world, modify,
    random, local_read, local_write, session_read, session_write in *.

(** Unfolds the calls on the remote table as well. *)
Ltac device_unfold :=
  unfold DeviceService.registerDevice_update, DeviceService.registerDevice_create,
    DeviceService.getIPAddress,
    select_device, update_device, insert_device, rpc_refresh_device_code,
    transport_fails in *;
  eff_unfold.

Section Completions.
Context {A B : Type}.
Variables (m : Eff A) (w w1 : World) (a : A).
Hypothesis m_returns : m w = (Return a, w1).

(** A computation that returns hands its value and world to what follows,
    and no handler runs. *)
Lemma bind_returns (f : A → Eff B) : (m ≫= f) w = f a w1.
Proof. unfold mbind, eff_bind. by rewrite m_returns. Qed.

Lemma try_catch_returns (h : Error → Eff A) : try_catch m h w = (Return a, w1).
Proof. unfold try_catch. by rewrite m_returns. Qed.

End Completions.

Lemma getDeviceId_returns (w : World) :
  ∃ deviceId w', DeviceService.getDeviceId w = (Return deviceId, w')
    ∧ content_query w' = content_query w
    ∧ storage_ok w' = storage_ok w
    ∧ now w' = now w
    ∧ cached_content (localStorage w') = cached_content (localStorage w)
    ∧ cache_timestamp (localStorage w') = cache_timestamp (localStorage w)
    ∧ sessionStorage w' = sessionStorage w.
Proof.
  unfold DeviceService.getDeviceId. eff_unfold.
  destruct w as [n e d ok ls ss o dv q ip]; simpl.
  destruct ok; simpl; [|eauto 10].
  destruct (truthy (ls_device_id ls)); simpl; eauto 10.
Qed.

Lemma getCachedContent_pure (w : World) :
  ContentService.getCachedContent w = (Return (cached_playlist w), w).
Proof.
  unfold cached_playlist, ContentService.getCachedContent. eff_unfold.
  destruct (storage_ok w); reflexivity.
Qed.

Lemma isCacheValid_pure (w : World) :
  ContentService.isCacheValid w = (Return (cache_fresh w), w).
Proof.
  unfold cache_fresh, ContentService.isCacheValid. eff_unfold.
  destruct (storage_ok w); [|reflexivity].
  destruct (cache_timestamp (localStorage w)); reflexivity.
Qed.

Lemma getDeviceCode_returns (w : World) :
  ∃ deviceCode w', DeviceService.getDeviceCode w = (Return deviceCode, w')
    ∧ localStorage w' = localStorage w ∧ storage_ok w' = storage_ok w.
Proof.
  unfold DeviceService.getDeviceCode, DeviceService.generateDeviceCode. eff_unfold.
  destruct w as [n e d ok ls ss o dv q ip]; simpl.
  destruct ok; simpl; [|eauto 10].
  destruct (truthy (ss_device_code ss)); simpl; eauto 10.
Qed.

Lemma getDefaultContent_returns (w : World) :
  ∃ deviceCode w',
    ContentService.getDefaultContent w
      = (Return (ContentService.defaultContent deviceCode (toISOString (now w))), w')
    ∧ localStorage w' = localStorage w ∧ storage_ok w' = storage_ok w.
Proof.
  unfold ContentService.getDefaultContent. eff_unfold.
  destruct (getDeviceCode_returns w) as (c & w' & -> & ? & ?). eauto.
Qed.

Lemma cacheContent_returns (items : list Content) (w : World) :
  ∃ w', ContentService.cacheContent items w = (Return tt, w').
Proof.
  unfold ContentService.cacheContent. eff_unfold.
  destruct w as [n e d ok ls ss o dv q ip]; simpl.
  destruct ok; simpl; eauto.
Qed.

Lemma getDeviceContent_spec (w : World) :
  ∃ w', ContentService.getDeviceContent w = (Return (fetched (remote_answer w)), w')
    ∧ storage_ok w' = storage_ok w
    ∧ now w' = now w
    ∧ cached_content (localStorage w') = cached_content (localStorage w)
    ∧ cache_timestamp (localStorage w') = cache_timestamp (localStorage w).
Proof.
  unfold ContentService.getDeviceContent, remote_answer.
  destruct (getDeviceId_returns w) as (id & w1 & Hid & Hq & ? & ? & ? & ? & ?).
  unfold mbind at 1, eff_bind at 1. rewrite Hid.
  unfold ContentService.select_device_content, ContentService.await. eff_unfold.
  rewrite Hq.
  destruct (content_query w id) as [[rows|] [e|]|e]; simpl; eauto 10.
Qed.

(** C10. [getDeviceContent] returns a list for every answer of the remote
    query and never throws; when the query fails (error object or
    rejected promise) the list is empty, which is also what a device
    without content gets, so the caller sees the same value in both
    cases. *)
Theorem getDeviceContent_never_throws (w : World) :
  (∃ items, returns ContentService.getDeviceContent w items)
  ∧ (fetch_fails w → returns ContentService.getDeviceContent w [])
  ∧ (fetch_fails w →
       (ContentService.getDeviceContent w).1
       = (ContentService.getDeviceContent (with_content_query no_content w)).1).
Proof.
  destruct (getDeviceContent_spec w) as (w' & Hw & _).
  assert (Hfail : fetch_fails w → fetched (remote_answer w) = []).
  { unfold fetch_fails. by destruct (remote_answer w) as [[?|] [?|]|?]. }
  split; [|split].
  - eexists. by exists w'.
  - intros Hf. exists w'. by rewrite Hw, (Hfail Hf).
  - intros Hf. rewrite Hw, (Hfail Hf).
    destruct (getDeviceContent_spec (with_content_query no_content w)) as (w2 & -> & _).
    simpl. f_equal. unfold remote_answer.
    destruct (getDeviceId_returns (with_content_query no_content w)) as (id & w3 & -> & _).
    reflexivity.
Qed.

Lemma getDeviceContent_never_throws_witness :
  fetch_fails world_fetch_rejected
  ∧ returns ContentService.getDeviceContent world_fetch_rejected []
  ∧ fetch_fails world_fetch_error
  ∧ returns ContentService.getDeviceContent world_fetch_error [].
Proof.
  assert (H1 : fetch_fails world_fetch_rejected) by exact I.
  assert (H2 : fetch_fails world_fetch_error) by exact I.
  split; [exact H1|]. split.
  - exact (proj1 (proj2 (getDeviceContent_never_throws world_fetch_rejected)) H1).
  - split; [exact H2|].
    exact (proj1 (proj2 (getDeviceContent_never_throws world_fetch_error)) H2).
Defined.

Lemma nonempty_length {A} (l : list A) : (0 < length l)%nat ↔ l ≠ [].
Proof. destruct l; simpl; split; intros; try congruence; lia. Qed.

Lemma empty_length {A} (l : list A) : ¬ (0 < length l)%nat → l = [].
Proof. destruct l; simpl; [done|]. intros H. exfalso. apply H. lia. Qed.

Lemma fetchFresh_cases (w : World) :
  let fresh := fetched (remote_answer w) in
  ∃ w', (fresh ≠ [] ∧ ContentService.fetchFresh w = (Return (Some fresh), w'))
      ∨ (fresh = [] ∧ ContentService.fetchFresh w = (Return None, w')
         ∧ storage_ok w' = storage_ok w
         ∧ now w' = now w
         ∧ cached_content (localStorage w') = cached_content (localStorage w)
         ∧ cache_timestamp (localStorage w') = cache_timestamp (localStorage w)).
Proof.
  intros fresh. unfold ContentService.fetchFresh.
  destruct (getDeviceContent_spec w) as (w1 & Hw & Hok & Hnow & Hc & Ht).
  setoid_rewrite (bind_returns _ _ _ _ Hw). fold fresh.
  case_bool_decide as Hlen.
  - apply nonempty_length in Hlen.
    destruct (cacheContent_returns fresh w1) as (w2 & Hw2).
    exists w2. left. split; [done|]. by rewrite (bind_returns _ _ _ _ Hw2).
  - apply empty_length in Hlen.
    exists w1. right. done.
Qed.

(** The [try] block of [getContentWithFallback] always completes: its
    [catch] block never runs. *)
Lemma getContentWithFallback_try_cases (w : World) :
  let cached := cached_playlist w in
  let fresh := fetched (remote_answer w) in
  ∃ returned w1,
    ContentService.getContentWithFallback_try w = (Return returned, w1)
    ∧ ((cache_fresh w = true ∧ cached ≠ [] ∧ returned = Some cached)
       ∨ (¬ (cache_fresh w = true ∧ cached ≠ []) ∧ fresh ≠ [] ∧ returned = Some fresh)
       ∨ (¬ (cache_fresh w = true ∧ cached ≠ []) ∧ fresh = [] ∧ returned = None
          ∧ storage_ok w1 = storage_ok w
          ∧ now w1 = now w
          ∧ cached_content (localStorage w1) = cached_content (localStorage w)
          ∧ cache_timestamp (localStorage w1) = cache_timestamp (localStorage w))).
Proof.
  intros cached fresh.
  assert (Hfetch : ¬ (cache_fresh w = true ∧ cached ≠ []) →
    ∃ returned w1, ContentService.fetchFresh w = (Return returned, w1)
      ∧ ((cache_fresh w = true ∧ cached ≠ [] ∧ returned = Some cached)
       ∨ (¬ (cache_fresh w = true ∧ cached ≠ []) ∧ fresh ≠ [] ∧ returned = Some fresh)
       ∨ (¬ (cache_fresh w = true ∧ cached ≠ []) ∧ fresh = [] ∧ returned = None
          ∧ storage_ok w1 = storage_ok w
          ∧ now w1 = now w
          ∧ cached_content (localStorage w1) = cached_content (localStorage w)
          ∧ cache_timestamp (localStorage w1) = cache_timestamp (localStorage w)))).
  { intros Hno. destruct (fetchFresh_cases w) as (w1 & [[Hne Hw]|(He & Hw & ?)]).
    - exists (Some fresh), w1. split; [done|]. right; left. done.
    - exists None, w1. split; [done|]. right; right. done. }
  unfold ContentService.getContentWithFallback_try.
  rewrite (bind_returns _ _ _ _ (isCacheValid_pure w)).
  destruct (cache_fresh w) eqn:Hfresh.
  - rewrite (bind_returns _ _ _ _ (getCachedContent_pure w)). fold cached.
    case_bool_decide as Hlen; rewrite nonempty_length in Hlen.
    + exists (Some cached), w. split; [done|]. left. done.
    + apply Hfetch. intros [_ ?]; done.
  - apply Hfetch. intros [? _]; done.
Qed.

(** The three ways [getContentWithFallback] ends. *)
Lemma getContentWithFallback_cases (w : World) :
  let cached := cached_playlist w in
  let fresh := fetched (remote_answer w) in
  ∃ result, returns ContentService.getContentWithFallback w result ∧
    ((cache_fresh w = true ∧ cached ≠ [] ∧ result = cached)
     ∨ (¬ (cache_fresh w = true ∧ cached ≠ []) ∧ fresh ≠ [] ∧ result = fresh)
     ∨ (¬ (cache_fresh w = true ∧ cached ≠ []) ∧ fresh = [] ∧ is_default result)).
Proof.
  intros cached fresh. unfold ContentService.getContentWithFallback, returns.
  destruct (getContentWithFallback_try_cases w)
    as (r & w1 & Hw & [(? & ? & ->)|[(? & ? & ->)|(? & ? & -> & _)]]);
    rewrite (bind_returns _ _ _ _ (try_catch_returns _ _ _ _ Hw _)).
  - exists cached. split; [by exists w1|]. left; done.
  - exists fresh. split; [by exists w1|]. right; left; done.
  - destruct (getDefaultContent_returns w1) as (c & w2 & Hd & _).
    eexists. split; [exists w2; exact Hd|]. right; right.
    split; [done|]. split; [done|]. by eexists _, _.
Qed.

Lemma remote_playlist_fetched (w : World) (remote : list Content) :
  remote_playlist w = Some remote → fetched (remote_answer w) = remote.
Proof.
  unfold remote_playlist, fetched.
  destruct (remote_answer w) as [[?|] [?|]|?]; congruence.
Qed.

Lemma defaultContent_is_default c s : is_default (ContentService.defaultContent c s).
Proof. by exists c, s. Qed.

Lemma nil_not_default : ¬ is_default [].
Proof. intros (c & s & H). discriminate H. Qed.

(** C1 (amended). With a remote query that succeeds, the resolution gives
    the built-in playlist exactly when the device is unpaired, or it is
    paired, the remote playlist is empty and the cache is not both fresh
    and non-empty; otherwise it gives the remote playlist or the cached
    one. *)
Theorem resolveCurrentContent_default_iff
    (isPaired : bool) (w : World) (remote : list Content) :
  remote_playlist w = Some remote →
  ¬ is_default remote →
  ¬ is_default (cached_playlist w) →
  ∃ result, returns (resolveCurrentContent isPaired) w result
    ∧ (is_default result ↔
         isPaired = false
         ∨ (isPaired = true ∧ remote = []
            ∧ ¬ (cache_fresh w = true ∧ cached_playlist w ≠ [])))
    ∧ (is_default result ∨ result = remote ∨ result = cached_playlist w).
Proof.
  intros Hremote Hnd_remote Hnd_cached.
  apply remote_playlist_fetched in Hremote.
  unfold resolveCurrentContent. destruct isPaired; simpl.
  - destruct (getContentWithFallback_cases w) as (result & Hret & Hcase).
    rewrite Hremote in Hcase. exists result. split; [done|].
    destruct Hcase as [(Hf & Hne & ->)|[(Hno & Hne & ->)|(Hno & He & Hd)]].
    + split; [|by right; right]. split; [done|].
      intros [?|(_ & _ & Hno)]; [done|]. exfalso. by apply Hno.
    + split; [|by right; left]. split; [done|].
      intros [?|(_ & ? & _)]; done.
    + split; [|by left]. split; [|done]. intros _. right. done.
  - destruct (getDefaultContent_returns w) as (c & w' & Hd & _).
    eexists. split; [by exists w'|]. split; [|left; apply defaultContent_is_default].
    split; [by left|]. intros _. apply defaultContent_is_default.
Qed.

Lemma item_list_not_default (c : Content) : ¬ is_default [c].
Proof. intros (? & ? & H). discriminate H. Qed.

Lemma resolveCurrentContent_default_iff_witness :
  ∃ result, returns (resolveCurrentContent true) world_stale_cache result
    ∧ (is_default result ↔
         true = false
         ∨ (true = true ∧ @nil Content = []
            ∧ ¬ (cache_fresh world_stale_cache = true
                 ∧ cached_playlist world_stale_cache ≠ [])))
    ∧ (is_default result ∨ result = [] ∨ result = cached_playlist world_stale_cache).
Proof.
  apply (resolveCurrentContent_default_iff true world_stale_cache []).
  - reflexivity.
  - apply nil_not_default.
  - apply item_list_not_default.
Defined.

(** C1 as stated fails: a paired device with an empty remote playlist and
    a non-empty cache that is two hours old is given the built-in
    playlist. *)
Lemma default_despite_cached_playlist :
  ¬ default_iff_nothing_available true world_stale_cache.
Proof.
  intros H.
  assert (Hret : returns (resolveCurrentContent true) world_stale_cache
                   (ContentService.defaultContent "123456" (toISOString 10000000))).
  { eexists. vm_compute. reflexivity. }
  destruct (H [] _ eq_refl Hret) as [Hdir _].
  destruct (Hdir (defaultContent_is_default _ _)) as [?|(_ & _ & Hc)]; [done|].
  discriminate Hc.
Qed.

(** Whatever the cache holds, a failed fetch with a cache that is not
    fresh ends in the built-in playlist: the [catch] block that would
    serve the expired cache is never entered. *)
Lemma fetch_failure_gives_default (w : World) :
  fetch_fails w → cache_fresh w = false →
  ∃ result, returns ContentService.getContentWithFallback w result ∧ is_default result.
Proof.
  intros Hfail Hstale.
  assert (Hf : fetched (remote_answer w) = []).
  { unfold fetch_fails in Hfail. by destruct (remote_answer w) as [[?|] [?|]|?]. }
  destruct (getContentWithFallback_cases w) as (result & Hret & Hcase).
  exists result. split; [done|].
  destruct Hcase as [(Hfresh & _)|[(_ & Hne & _)|(_ & _ & Hd)]]; [congruence|congruence|done].
Qed.

(** C5 (the code departs from it). The fetch fails while the cache holds
    [[x]], two hours old: [getContentWithFallback] gives the built-in
    playlist, not [[x]], for an error object and for a rejected promise
    alike. *)
Theorem expired_cache_not_served_on_fetch_failure :
  fetch_fails world_fetch_error
  ∧ fetch_fails world_fetch_rejected
  ∧ cached_playlist world_fetch_error = [item "x" 5]
  ∧ cached_playlist world_fetch_rejected = [item "x" 5]
  ∧ returns ContentService.getContentWithFallback world_fetch_error
      (ContentService.defaultContent "123456" (toISOString 10000000))
  ∧ returns ContentService.getContentWithFallback world_fetch_rejected
      (ContentService.defaultContent "123456" (toISOString 10000000)).
Proof.
  repeat split; try exact I; try reflexivity; eexists; vm_compute; reflexivity.
Qed.

(** The push path clears the cache on an empty playlist. *)
Lemma onContentUpdate_empty_clears (h' : ContentHook.HookState) (w w' : World) :
  ContentHook.onContentUpdate [] w = (Return h', w') →
  is_default (ContentHook.hk_content h')
  ∧ cached_content (localStorage w') = None ∧ cache_timestamp (localStorage w') = None.
Proof.
  unfold ContentHook.onContentUpdate, ContentHook.onContentUpdate_state,
    ContentHook.onContentUpdate_storage. simpl.
  destruct (getDefaultContent_returns w) as (c & w1 & Hd & Hls & Hok).
  rewrite (bind_returns _ _ _ _ (bind_returns _ _ _ _ Hd _)). eff_unfold.
  destruct w1 as [n e d ok ls ss o dv q ip]; simpl in *.
  destruct ok; simpl; intros [= <- <-].
  split; [apply defaultContent_is_default|done].
Qed.

(** C6 (the code departs from it). A live fetch that succeeds with an
    empty playlist leaves the cache in place on the pull paths: after
    [loadContent] the ten minutes old cache still holds [[x]] and a later
    [getContentWithFallback] serves it; [getContentWithFallback] itself
    keeps a two hours old [[x]].  Only the subscription callback removes
    both keys. *)
Theorem empty_sync_keeps_cache_on_pull :
  remote_playlist world_fresh_cache = Some []
  ∧ remote_playlist world_stale_cache = Some []
  ∧ (∃ h w',
       ContentHook.loadContent ContentHook.initial world_fresh_cache = (Return h, w')
       ∧ is_default (ContentHook.hk_content h)
       ∧ cached_content (localStorage w') = Some [item "x" 5]
       ∧ cache_timestamp (localStorage w') = Some (now world0 - 600000)
       ∧ returns ContentService.getContentWithFallback w' [item "x" 5])
  ∧ (∃ result w',
       ContentService.getContentWithFallback world_stale_cache = (Return result, w')
       ∧ is_default result
       ∧ cached_content (localStorage w') = Some [item "x" 5]
       ∧ cache_timestamp (localStorage w') = Some (now world0 - 2 * hour))
  ∧ (∃ h w',
       ContentHook.refresh ContentHook.initial world_fresh_cache = (Return h, w')
       ∧ is_default (ContentHook.hk_content h)
       ∧ cached_content (localStorage w') = None
       ∧ cache_timestamp (localStorage w') = None).
Proof.
  split; [reflexivity|]. split; [reflexivity|]. split; [|split].
  - eexists _, _. split; [vm_compute; reflexivity|].
    split; [by exists "123456", (toISOString 10000000)|].
    split; [reflexivity|]. split; [reflexivity|].
    eexists. vm_compute. reflexivity.
  - eexists _, _. split; [vm_compute; reflexivity|].
    split; [by exists "123456", (toISOString 10000000)|]. split; reflexivity.
  - eexists _, _. split; [vm_compute; reflexivity|].
    split; [by exists "123456", (toISOString 10000000)|]. split; reflexivity.
Qed.

(** *** Registration *)

Lemma select_device_spec id w r w' :
  select_device id w = (Return r, w') →
  devices w' = devices w ∧ same_storage w w'
  ∧ (∀ d, r = Row d → devices w !! id = Some d).
Proof.
  device_unfold. destruct w as [n e d ok ls ss o dv q ip]; simpl.
  destruct o as [|[] o]; simpl; try destruct (dv !! id) eqn:E; simpl;
    intros [= <- <-]; simpl; (split; [done|]); (split; [done|]); intros ? [=]; congruence.
Qed.

Lemma select_device_returns id w : ∃ r w', select_device id w = (Return r, w').
Proof.
  device_unfold. destruct w as [n e d ok ls ss o dv q ip]; simpl.
  destruct o as [|[] o]; simpl; try destruct (dv !! id); simpl; eauto.
Qed.

Lemma registerDevice_update_spec id code existing w r w' :
  DeviceService.registerDevice_update id code existing w = (r, w') →
  same_storage w w'
  ∧ ((devices w' = devices w ∧ ∃ e, r = Throw e)
     ∨ (∃ d patch, devices w !! id = Some d
          ∧ devices w' = <[id := apply_patch patch d]> (devices w)
          ∧ r = Return (apply_patch patch d)
          ∧ (truthy (d_user_id existing) = true → p_device_name patch = None))).
Proof.
  device_unfold. destruct w as [n e d ok ls ss o dv q ip]; simpl.
  destruct o as [|[] o]; simpl; try destruct (dv !! id) eqn:E; simpl;
    intros [= <- <-]; simpl; (split; [done|]); eauto.
  all: right; eexists _, _; split; [done|]; split; [done|]; split; [done|];
    simpl; by intros ->.
Qed.

Lemma registerDevice_create_spec id code w r w' :
  DeviceService.registerDevice_create id code w = (r, w') →
  same_storage w w'
  ∧ ((devices w' = devices w ∧ ∃ e, r = Throw e)
     ∨ (∃ row, devices w !! id = None
          ∧ devices w' = <[id := row]> (devices w)
          ∧ r = Return row
          ∧ d_id row = id ∧ device_code row = code
          ∧ device_name row = "Pi Display " +:+ code ∧ d_user_id row = None)
     ∨ (∃ d patch, devices w !! id = Some d
          ∧ devices w' = <[id := apply_patch patch d]> (devices w)
          ∧ r = Return (apply_patch patch d)
          ∧ p_device_name patch = None)).
Proof.
  device_unfold. destruct w as [n e d ok ls ss o dv q ip]; simpl.
  destruct o as [|[] [|[] o]]; simpl; destruct (dv !! id) eqn:E; simpl;
    rewrite ?E; simpl; intros [= <- <-]; simpl; (split; [done|]); eauto 10.
  all: try (right; left; eexists; repeat (split; [done|]); done).
  all: try (right; right; eexists _, _; repeat (split; [done|]); done).
Qed.

Lemma getDeviceId_frame (w : World) :
  ∃ deviceId w', DeviceService.getDeviceId w = (Return deviceId, w')
    ∧ devices w' = devices w ∧ outages w' = outages w
    ∧ storage_ok w' = storage_ok w ∧ sessionStorage w' = sessionStorage w
    ∧ (storage_ok w = true →
         ls_device_id (localStorage w') = Some deviceId ∧ truthy (Some deviceId) = true
         ∧ (truthy (ls_device_id (localStorage w)) = true →
              ls_device_id (localStorage w) = Some deviceId)).
Proof.
  unfold DeviceService.getDeviceId. eff_unfold.
  destruct w as [n e d ok ls ss o dv q ip]; simpl.
  destruct ok; simpl; [|eexists _, _; repeat (split; [done|]); done].
  destruct (ls_device_id ls) as [s|] eqn:Hid; simpl.
  - destruct (negb (String.eqb s "")) eqn:Hs; simpl;
      eexists _, _; repeat (split; [done|]); done.
  - eexists _, _; repeat (split; [done|]); done.
Qed.

Lemma getDeviceCode_frame (w : World) :
  ∃ deviceCode w', DeviceService.getDeviceCode w = (Return deviceCode, w')
    ∧ devices w' = devices w ∧ outages w' = outages w
    ∧ storage_ok w' = storage_ok w ∧ localStorage w' = localStorage w.
Proof.
  unfold DeviceService.getDeviceCode, DeviceService.generateDeviceCode. eff_unfold.
  destruct w as [n e d ok ls ss o dv q ip]; simpl.
  destruct ok; simpl; [|eauto 10].
  destruct (truthy (ss_device_code ss)); simpl; eauto 10.
Qed.

(** [registerDevice] step by step; its [catch] block only rethrows. *)
Lemma registerDevice_inv (w w' : World) (r : Completion Device) :
  DeviceService.registerDevice w = (r, w') →
  ∃ id code wa wb wc check,
    DeviceService.getDeviceId w = (Return id, wa)
    ∧ DeviceService.getDeviceCode wa = (Return code, wb)
    ∧ select_device id wb = (Return check, wc)
    ∧ match check with
      | Row existing => DeviceService.registerDevice_update id code existing wc = (r, w')
      | Failed _ => DeviceService.registerDevice_create id code wc = (r, w')
      end.
Proof.
  unfold DeviceService.registerDevice.
  destruct (getDeviceId_frame w) as (id & wa & Hid & _).
  destruct (getDeviceCode_frame wa) as (c & wb & Hc & _).
  destruct (select_device_returns id wb) as (check & wc & Hs).
  rewrite (bind_returns _ _ _ _ Hid), (bind_returns _ _ _ _ Hc).
  unfold try_catch. rewrite (bind_returns _ _ _ _ Hs).
  intros H. exists id, c, wa, wb, wc, check. repeat (split; [done|]).
  destruct check as [existing|e].
  - destruct (DeviceService.registerDevice_update id c existing wc) as [[d|e] w2];
      unfold throw in H; congruence.
  - destruct (DeviceService.registerDevice_create id c wc) as [[d|e'] w2];
      unfold throw in H; congruence.
Qed.

Lemma names_kept_same (w w' : World) : devices w' = devices w → names_kept w w'.
Proof. intros H id d ? ?. exists d. by rewrite H. Qed.

Lemma names_kept_patch (w w' : World) k d0 patch :
  devices w !! k = Some d0 →
  (truthy (d_user_id d0) = true → p_device_name patch = None) →
  devices w' = <[k := apply_patch patch d0]> (devices w) →
  names_kept w w'.
Proof.
  intros Hk Hp Hw' id d Hid Hpaired. rewrite Hw'.
  destruct (decide (k = id)) as [->|Hne].
  - rewrite lookup_insert_eq. eexists. split; [done|].
    rewrite Hk in Hid. injection Hid as ->.
    simpl. by rewrite (Hp Hpaired).
  - rewrite lookup_insert_ne by done. by exists d.
Qed.

Lemma names_kept_fresh (w w' : World) k row :
  devices w !! k = None → devices w' = <[k := row]> (devices w) → names_kept w w'.
Proof.
  intros Hk Hw' id d Hid _. rewrite Hw'.
  destruct (decide (k = id)) as [->|Hne]; [congruence|].
  rewrite lookup_insert_ne by done. by exists d.
Qed.

Lemma registerDevice_names_kept (w w' : World) r :
  DeviceService.registerDevice w = (r, w') → names_kept w w'.
Proof.
  intros H. apply registerDevice_inv in H as (id & c & wa & wb & wc & check & Hid & Hc & Hs & H).
  destruct (getDeviceId_frame w) as (? & ? & Hid' & Hda & _).
  rewrite Hid in Hid'. injection Hid' as <- <-.
  destruct (getDeviceCode_frame wa) as (? & ? & Hc' & Hdb & _).
  rewrite Hc in Hc'. injection Hc' as <- <-.
  apply select_device_spec in Hs as (Hdc & _ & Hrow).
  assert (Hdv : devices wc = devices w) by congruence.
  intros k d Hk Hp. rewrite <- Hdv in Hk. revert k d Hk Hp. fold (names_kept wc w').
  destruct check as [existing|e].
  - apply registerDevice_update_spec in H
      as (_ & [(Hsame & _)|(d & patch & Hd & Hw' & _ & Hname)]).
    + by apply names_kept_same.
    + eapply names_kept_patch; [done| |done].
      rewrite Hdc, (Hrow existing eq_refl) in Hd. by injection Hd as ->.
  - apply registerDevice_create_spec in H
      as (_ & [(Hsame & _)|[(row & Hnone & Hw' & _)|(d & patch & Hd & Hw' & _ & Hname)]]).
    + by apply names_kept_same.
    + by eapply names_kept_fresh.
    + by eapply names_kept_patch.
Qed.

Lemma updateDeviceCode_names_kept (w w' : World) r :
  DeviceService.updateDeviceCode w = (r, w') → names_kept w w'.
Proof.
  unfold DeviceService.updateDeviceCode.
  destruct (getDeviceId_frame w) as (id & wa & Hid & Hda & _).
  destruct (getDeviceCode_frame wa) as (c & wb & Hc & Hdb & _).
  rewrite (bind_returns _ _ _ _ Hid), (bind_returns _ _ _ _ Hc).
  assert (Hdv : devices wb = devices w) by congruence.
  intros H k d Hk Hp. rewrite <- Hdv in Hk. revert k d Hk Hp. fold (names_kept wb w').
  revert H. device_unfold.
  destruct wb as [n e d ok ls ss o dv q ip]; simpl.
  destruct o as [|[] o]; simpl; try destruct (dv !! id) eqn:E; simpl;
    intros [= _ <-]; try (by apply names_kept_same).
  all: eapply (names_kept_patch _ _ id); [simpl; exact E| |reflexivity]; done.
Qed.

Lemma keyed_by_id_insert (table : gmap string Device) k d :
  keyed_by_id table → d_id d = k → keyed_by_id (<[k := d]> table).
Proof.
  intros Ht Hd k' d'. destruct (decide (k = k')) as [->|Hne].
  - rewrite lookup_insert_eq. by intros [= <-].
  - rewrite lookup_insert_ne by done. apply Ht.
Qed.

(** A registration that succeeds concerns the stored device id and
    leaves it stored. *)
Lemma registerDevice_id (w w' : World) (d : Device) :
  storage_ok w = true → keyed_by_id (devices w) →
  DeviceService.registerDevice w = (Return d, w') →
  ∃ id, d_id d = id
    ∧ ls_device_id (localStorage w') = Some id ∧ truthy (Some id) = true
    ∧ storage_ok w' = true ∧ keyed_by_id (devices w').
Proof.
  intros Hok Hkey H.
  apply registerDevice_inv in H as (id & c & wa & wb & wc & check & Hid & Hc & Hs & H).
  destruct (getDeviceId_frame w) as (? & ? & Hid' & Hda & _ & Hoka & _ & Hstored).
  rewrite Hid in Hid'. injection Hid' as <- <-.
  destruct (Hstored Hok) as (Hls & Htruthy & _).
  destruct (getDeviceCode_frame wa) as (? & ? & Hc' & Hdb & _ & Hokb & Hlsb).
  rewrite Hc in Hc'. injection Hc' as <- <-.
  apply select_device_spec in Hs as (Hdc & (Hokc & Hlsc & _) & Hrow).
  assert (Hdv : devices wc = devices w) by congruence.
  assert (Hkeyc : keyed_by_id (devices wc)) by (by rewrite Hdv).
  exists id.
  assert (Hst : ∀ w2, same_storage wc w2 →
            ls_device_id (localStorage w2) = Some id ∧ storage_ok w2 = true).
  { intros w2 (Hok2 & Hls2 & _). split; congruence. }
  destruct check as [existing|e].
  - apply registerDevice_update_spec in H
      as (Hsame & [(_ & e & [=])|(d0 & patch & Hd0 & Hw' & [= ->] & _)]).
    destruct (Hst _ Hsame) as [? ?].
    split; [by apply Hkeyc in Hd0|]. repeat (split; [done|]).
    rewrite Hw'. apply keyed_by_id_insert; [done|]. by apply Hkeyc in Hd0.
  - apply registerDevice_create_spec in H
      as (Hsame & [(_ & e' & [=])|[(row & Hnone & Hw' & [= ->] & Hrid & _)
                                 |(d0 & patch & Hd0 & Hw' & [= ->] & _)]]);
      destruct (Hst _ Hsame) as [? ?].
    + split; [done|]. repeat (split; [done|]).
      rewrite Hw'. by apply keyed_by_id_insert.
    + split; [by apply Hkeyc in Hd0|]. repeat (split; [done|]).
      rewrite Hw'. apply keyed_by_id_insert; [done|]. by apply Hkeyc in Hd0.
Qed.

Lemma registerDevice_same_id (w : World) :
  storage_ok w = true → keyed_by_id (devices w) → same_id_twice w.
Proof.
  intros Hok Hkey d1 w1 d2 w2 H1 H2.
  destruct (registerDevice_id _ _ _ Hok Hkey H1) as (id & <- & Hls & Ht & Hok1 & Hkey1).
  destruct (registerDevice_id _ _ _ Hok1 Hkey1 H2) as (id2 & <- & _).
  apply registerDevice_inv in H2 as (id' & c & wa & wb & wc & check & Hid & Hc & Hs & H).
  destruct (getDeviceId_frame w1) as (? & ? & Hid' & Hda & _ & Hoka & _ & Hstored).
  rewrite Hid in Hid'. injection Hid' as <- <-.
  destruct (Hstored Hok1) as (_ & _ & Hsame).
  rewrite Hls in Hsame. specialize (Hsame Ht). injection Hsame as Hsame.
  destruct (getDeviceCode_frame wa) as (? & ? & Hc' & Hdb & _).
  rewrite Hc in Hc'. injection Hc' as <- <-.
  apply select_device_spec in Hs as (Hdc & _ & Hrow).
  assert (Hkeyc : keyed_by_id (devices wc)) by (by rewrite Hdc, Hdb, Hda).
  rewrite Hsame.
  destruct check as [existing|e].
  - apply registerDevice_update_spec in H
      as (_ & [(_ & e & [=])|(d0 & patch & Hd0 & _ & [= ->] & _)]).
    by apply Hkeyc in Hd0.
  - apply registerDevice_create_spec in H
      as (_ & [(_ & e' & [=])|[(row & _ & _ & [= ->] & Hrid & _)
                             |(d0 & patch & Hd0 & _ & [= ->] & _)]]); [done|].
    by apply Hkeyc in Hd0.
Qed.

(** The first registration over a reachable service creates the record
    with the name ["Pi Display {code}"] and without an owner. *)
Lemma registerDevice_first (w : World) (deviceId : string) :
  returns DeviceService.getDeviceId w deviceId →
  devices w !! deviceId = None → outages w = [] →
  ∃ d w', DeviceService.registerDevice w = (Return d, w')
    ∧ devices w' !! deviceId = Some d
    ∧ device_name d = "Pi Display " +:+ device_code d
    ∧ d_user_id d = None.
Proof.
  intros (wa0 & Hid0) Hnone Hout.
  unfold DeviceService.registerDevice.
  destruct (getDeviceId_frame w) as (id & wa & Hid & Hda & Hoa & _).
  rewrite Hid0 in Hid. injection Hid as <- <-.
  destruct (getDeviceCode_frame wa0) as (c & wb & Hc & Hdb & Hob & _).
  rewrite (bind_returns _ _ _ _ Hid0), (bind_returns _ _ _ _ Hc).
  assert (Hdv : devices wb !! deviceId = None) by (by rewrite Hdb, Hda).
  assert (Ho : outages wb = []) by congruence.
  clear Hob Hdb Hc.
  device_unfold. destruct wb as [n e d ok ls ss o dv q ip]; simpl in *.
  subst o. simpl. repeat (rewrite Hdv; simpl).
  eexists _, _. split; [done|]. simpl. rewrite lookup_insert_eq. done.
Qed.

Lemma keyed_by_id_empty : keyed_by_id ∅.
Proof. intros k d H. by rewrite lookup_empty in H. Qed.

(** C7 (amended). With local storage available: the first registration
    creates the record under the name ["Pi Display {code}"]; no later
    registration and no code update changes the name of a record that has
    an owner; two registrations in a row concern the same device id. *)
Theorem registerDevice_display_name (w : World) :
  storage_ok w = true →
  keyed_by_id (devices w) →
  (∀ deviceId,
     returns DeviceService.getDeviceId w deviceId →
     devices w !! deviceId = None → outages w = [] →
     ∃ d w', DeviceService.registerDevice w = (Return d, w')
       ∧ devices w' !! deviceId = Some d
       ∧ device_name d = "Pi Display " +:+ device_code d
       ∧ d_user_id d = None)
  ∧ (∀ r w', DeviceService.registerDevice w = (r, w') → names_kept w w')
  ∧ (∀ r w', DeviceService.updateDeviceCode w = (r, w') → names_kept w w')
  ∧ same_id_twice w.
Proof.
  intros Hok Hkey. split; [|split; [|split]].
  - intros id. apply registerDevice_first.
  - intros r w'. apply registerDevice_names_kept.
  - intros r w'. apply updateDeviceCode_names_kept.
  - by apply registerDevice_same_id.
Qed.

Lemma keyed_by_id_paired : keyed_by_id (devices world_paired).
Proof.
  apply (keyed_by_id_insert ∅ "dev-1" paired_record); [apply keyed_by_id_empty|reflexivity].
Qed.

Lemma registerDevice_display_name_witness :
  (∃ d w', DeviceService.registerDevice world0 = (Return d, w')
     ∧ devices w' !! "dev-1" = Some d
     ∧ device_name d = "Pi Display " +:+ device_code d
     ∧ d_user_id d = None)
  ∧ (∀ r w', DeviceService.registerDevice world_paired = (r, w') →
       names_kept world_paired w').
Proof.
  split.
  - apply (proj1 (registerDevice_display_name world0 eq_refl keyed_by_id_empty) "dev-1").
    + eexists. reflexivity.
    + reflexivity.
    + reflexivity.
  - exact (proj1 (proj2 (registerDevice_display_name world_paired eq_refl keyed_by_id_paired))).
Defined.

(** C7 as stated fails: the first registration does not name the record
    ["Display 123456"], and without usable storage two registrations in a
    row concern two different device ids. *)
Lemma first_name_is_not_display_code :
  ¬ first_name_is_display_code world0 ∧ ¬ same_id_twice world_no_storage.
Proof.
  split.
  - intros H.
    destruct (DeviceService.registerDevice world0) as [[d|e] w'] eqn:E;
      vm_compute in E; [|discriminate E].
    injection E as <- <-.
    specialize (H _ _ eq_refl eq_refl). discriminate H.
  - intros H.
    assert (Hruns : ∃ d1 w1 d2 w2,
              DeviceService.registerDevice world_no_storage = (Return d1, w1)
              ∧ DeviceService.registerDevice w1 = (Return d2, w2)
              ∧ d_id d2 ≠ d_id d1).
    { eexists _, _, _, _. split; [vm_compute; reflexivity|].
      split; [vm_compute; reflexivity|]. vm_compute. intros [=]. }
    destruct Hruns as (d1 & w1 & d2 & w2 & H1 & H2 & Hne).
    exact (Hne (H _ _ _ _ H1 H2)).
Qed.

(** *** Code rotation *)

(** With a code in the session storage [getDeviceCode] gives that code
    and generates nothing. *)
Lemma getDeviceCode_session (w : World) (c : string) :
  storage_ok w = true → ss_device_code (sessionStorage w) = Some c →
  truthy (Some c) = true →
  DeviceService.getDeviceCode w = (Return c, w).
Proof.
  intros Hok Hc Ht. unfold DeviceService.getDeviceCode. eff_unfold.
  rewrite Hok, Hc, Ht. reflexivity.
Qed.

(** Once paired the rotation timer does nothing. *)
Lemma rotation_suppressed_when_paired (p : DevicePairing.Pairing) (w : World) :
  DevicePairing.isPaired p = true →
  DevicePairing.refreshDeviceCode p w = (Return p, w).
Proof. intros Hp. unfold DevicePairing.refreshDeviceCode, try_catch. by rewrite Hp. Qed.

(** C2 (the code departs from it). The rotation timer runs on the
    unpaired device [dev-1] whose session holds the code 123456: no code
    is generated, the screen and the remote record show 123456 again.
    The button that refreshes the code does generate a new one (654321)
    in the same situation. *)
Theorem rotation_timer_reuses_code :
  (∃ p' w',
     DevicePairing.refreshDeviceCode pairing_screen world_unpaired = (Return p', w')
     ∧ DevicePairing.deviceCode p' = "123456"
     ∧ DevicePairing.countdown p' = 600
     ∧ ss_device_code (sessionStorage w') = Some "123456"
     ∧ device_code <$> devices w' !! "dev-1" = Some "123456"
     ∧ draws w' = draws world_unpaired)
  ∧ (∃ p' w',
       DevicePairing.clickRefreshCode pairing_screen world_unpaired = (Return p', w')
       ∧ DevicePairing.deviceCode p' = "654321"
       ∧ ss_device_code (sessionStorage w') = Some "654321"
       ∧ device_code <$> devices w' !! "dev-1" = Some "654321").
Proof.
  split.
  - eexists _, _. split; [vm_compute; reflexivity|]. repeat split; vm_compute; reflexivity.
  - eexists _, _. split; [vm_compute; reflexivity|]. repeat split; vm_compute; reflexivity.
Qed.

(** *** Debounce *)

Lemma last_cons_some {A} (x : A) (l : list A) : ∃ y, last (x :: l) = Some y.
Proof.
  revert x. induction l as [|z l IH]; intros x; [by exists x|].
  destruct (IH z) as [y Hy]. by exists y.
Qed.

Lemma last_time_cons (t : Z) (e : Z * ContentSubscription.Stream) later :
  ContentSubscription.last_time t (e :: later) = ContentSubscription.last_time e.1 later.
Proof.
  unfold ContentSubscription.last_time.
  destruct (last_cons_some e.1 (map fst later)) as [y Hy].
  change (last (t :: map fst (e :: later))) with (last (e.1 :: map fst later)).
  by rewrite Hy.
Qed.

Lemma run_burst later : ∀ t rs,
  ContentSubscription.burst t later →
  ContentSubscription.run later (ContentSubscription.mkSubscription (Some (t + 500)) rs)
  = ContentSubscription.mkSubscription
      (Some (ContentSubscription.last_time t later + 500)) rs.
Proof.
  induction later as [|e later IH]; intros t rs Hb.
  - reflexivity.
  - destruct Hb as (Hle & Hlt & Hb). rewrite last_time_cons.
    unfold ContentSubscription.run in *. simpl.
    rewrite <- (IH e.1 rs Hb). f_equal.
    unfold ContentSubscription.notify, ContentSubscription.elapse,
      ContentSubscription.fetchAndCallback. simpl.
    destruct (Z.leb_spec (t + 500) e.1) as [?|_]; [lia|].
    by destruct e.2.
Qed.

(** C8. A burst of notifications, on either stream, in which consecutive
    notifications are less than 500 ms apart, makes the subscription
    refresh exactly once, 500 ms after the last notification: nothing has
    run before that time, and one timeout has run at any later time. *)
Theorem burst_triggers_one_refresh
    (t : Z) (on : ContentSubscription.Stream)
    (later : list (Z * ContentSubscription.Stream)) (T : Z) :
  ContentSubscription.burst t later →
  let s := ContentSubscription.run ((t, on) :: later) ContentSubscription.subscribed in
  let quiet := ContentSubscription.last_time t later + 500 in
  (T < quiet → ContentSubscription.refreshes (ContentSubscription.elapse T s) = [])
  ∧ (quiet <= T →
       ContentSubscription.refreshes (ContentSubscription.elapse T s) = [quiet]
       ∧ ContentSubscription.debounceTimer (ContentSubscription.elapse T s) = None).
Proof.
  intros Hb s quiet.
  assert (Hs : s = ContentSubscription.mkSubscription (Some quiet) []).
  { unfold s, quiet. rewrite <- (run_burst later t [] Hb).
    unfold ContentSubscription.run. simpl. f_equal. by destruct on. }
  rewrite Hs. unfold ContentSubscription.elapse, ContentSubscription.timeout. simpl.
  split; intros HT.
  - destruct (Z.leb_spec quiet T); [lia|done].
  - destruct (Z.leb_spec quiet T); [done|lia].
Qed.

Lemma burst_triggers_one_refresh_witness :
  let s := ContentSubscription.run
             [(1000, ContentSubscription.device_content_changes);
              (1400, ContentSubscription.content_changes);
              (1899, ContentSubscription.device_content_changes)]
             ContentSubscription.subscribed in
  ContentSubscription.refreshes (ContentSubscription.elapse 2398 s) = []
  ∧ ContentSubscription.refreshes (ContentSubscription.elapse 60000 s) = [2399].
Proof.
  assert (Hb : ContentSubscription.burst 1000
                 [(1400, ContentSubscription.content_changes);
                  (1899, ContentSubscription.device_content_changes)]).
  { simpl. lia. }
  split.
  - apply (proj1 (burst_triggers_one_refresh 1000
                    ContentSubscription.device_content_changes _ 2398 Hb)).
    vm_compute. reflexivity.
  - apply (proj2 (burst_triggers_one_refresh 1000
                    ContentSubscription.device_content_changes _ 60000 Hb)).
    vm_compute. discriminate.
Defined.

(** *** Display scheduler *)

Import ContentDisplay.

Lemma to_int32_in_range (z : Z) :
  -2147483648 <= z <= 2147483647 → to_int32 z = z.
Proof. intros Hz. unfold to_int32. rewrite Z.mod_small by lia. lia. Qed.

Lemma setTimeout_delay_in_range (ms : Z) :
  0 <= ms <= 2147483647 → setTimeout_delay ms = ms.
Proof. intros Hms. unfold setTimeout_delay. rewrite to_int32_in_range by lia. lia. Qed.

Lemma setTimeout_delay_nonneg (ms : Z) : 0 <= setTimeout_delay ms.
Proof. unfold setTimeout_delay. lia. Qed.

Lemma item_delay_duration (c : Content) (d : Z) :
  duration c = Some d → d ≠ 0 → item_delay (Some c) = d * 1000.
Proof.
  intros Hd Hne. unfold item_delay. simpl. rewrite Hd.
  destruct (Z.eqb_spec d 0); [done|lia].
Qed.

Lemma item_delay_default (c : option Content) :
  c ≫= duration = None ∨ c ≫= duration = Some 0 → item_delay c = 10 * 1000.
Proof. unfold item_delay. by intros [-> | ->]. Qed.

Lemma advance_forward_in_range (len i : Z) :
  2 <= len → 0 <= i → 0 <= advance forward len i < len.
Proof. intros. unfold advance. rewrite Z.rem_mod_nonneg by lia. apply Z.mod_pos_bound. lia. Qed.

Lemma advance_backward_in_range (len i : Z) :
  2 <= len → 0 <= i → 0 <= advance backward len i < len.
Proof. intros. unfold advance. rewrite Z.rem_mod_nonneg by lia. apply Z.mod_pos_bound. lia. Qed.

Lemma advance_forward_moves (len i : Z) :
  2 <= len → 0 <= i < len → advance forward len i ≠ i.
Proof.
  intros Hlen Hi. unfold advance. rewrite Z.rem_mod_nonneg by lia.
  destruct (Z.eq_dec (i + 1) len) as [Heq|Hne].
  - rewrite Heq, Z.mod_same by lia. lia.
  - rewrite Z.mod_small by lia. lia.
Qed.

Lemma mount_showing (c : list Content) (t : Z) :
  c ≠ [] → mount c t = showing c 0 t.
Proof.
  intros Hc. unfold mount, effect, showing, startTimer, content_length. simpl.
  destruct c as [|x c]; [done|]. reflexivity.
Qed.

(** A playlist of one item: the item timer runs once and arms nothing. *)
Lemma single_item_quiescent (c : list Content) (t : Z) (n : nat) :
  length c = 1%nat →
  Nat.iter (S n) tick (mount c t)
  = mkDisplay c 0 false None []
      (t + setTimeout_delay (item_delay (c !! 0%nat))).
Proof.
  intros Hlen. destruct c as [|x [|y c]]; try discriminate Hlen.
  induction n as [|n IH]; [reflexivity|].
  change (Nat.iter (S (S n)) tick ?s) with (tick (Nat.iter (S n) tick s)).
  rewrite IH. reflexivity.
Qed.

(** C9 (amended). A playlist of two or more items with item [i] on
    display since [t], when the delay of that item is one the timer can
    hold (at most 2147483647 ms): the delay is the item's duration in
    seconds times 1000, and 10 s when the item has no duration or a
    duration of 0; when it has elapsed the display is transitioning and
    still on [i]; 300 ms later item [(i + 1) mod length] is on display
    and the transition is over.  A playlist of one item stays on its
    item, without a transition, however many timers have run. *)
Theorem auto_advance_cycle (c : list Content) (i t : Z) :
  (∀ item d, duration item = Some d → d ≠ 0 → item_delay (Some item) = d * 1000)
  ∧ (∀ o, o ≫= duration = None ∨ o ≫= duration = Some 0 → item_delay o = 10 * 1000)
  ∧ (c ≠ [] → mount c t = showing c 0 t)
  ∧ ((2 <= length c)%nat → 0 <= i < Z.of_nat (length c) →
     0 <= item_delay (c !! Z.to_nat i) <= 2147483647 →
       let elapsed := t + item_delay (c !! Z.to_nat i) in
       let s := tick (showing c i t) in
       clock s = elapsed ∧ isTransitioning s = true ∧ currentIndex s = i
       ∧ tick s = showing c ((i + 1) `mod` Z.of_nat (length c)) (elapsed + 300))
  ∧ (length c = 1%nat →
       ∀ n, currentIndex (Nat.iter n tick (mount c t)) = 0
            ∧ isTransitioning (Nat.iter n tick (mount c t)) = false
            ∧ commits (Nat.iter n tick (mount c t)) = []).
Proof.
  split; [apply item_delay_duration|]. split; [apply item_delay_default|].
  split; [apply mount_showing|]. split.
  - intros Hlen Hi Hms elapsed s.
    assert (Hneg : (i <? 0) = false) by (apply Z.ltb_ge; lia).
    assert (Hlen1 : (Z.of_nat (length c) <=? 1) = false) by (apply Z.leb_gt; lia).
    assert (Hs : s = mkDisplay c i true None
                       [mkCommit (elapsed + 300) forward (Z.of_nat (length c))] elapsed).
    { unfold s, elapsed, showing, tick, fire_timer, transition. simpl.
      rewrite Hneg. simpl. rewrite Hlen1.
      by rewrite (setTimeout_delay_in_range _ Hms). }
    rewrite Hs. simpl. repeat (split; [reflexivity|]).
    unfold tick, fire_commit. simpl.
    pose proof (advance_forward_moves (Z.of_nat (length c)) i ltac:(lia) Hi) as Hmove.
    pose proof (advance_forward_in_range (Z.of_nat (length c)) i ltac:(lia) ltac:(lia)) as Hin.
    unfold advance in *. rewrite Z.rem_mod_nonneg in * by lia.
    destruct (Z.eqb_spec ((i + 1) `mod` Z.of_nat (length c)) i) as [?|_]; [done|].
    unfold effect, startTimer, content_length, currentContent, showing. simpl.
    destruct (Z.eqb_spec (Z.of_nat (length c)) 0) as [?|_]; [lia|].
    reflexivity.
  - intros Hlen n. destruct n as [|n].
    + destruct c as [|x [|y c]]; try discriminate Hlen. by simpl.
    + by rewrite single_item_quiescent.
Qed.

Lemma auto_advance_cycle_witness :
  let s := tick (showing abc 2 0) in
  clock s = 4000 ∧ isTransitioning s = true ∧ currentIndex s = 2
  ∧ tick s = showing abc 0 4300.
Proof.
  assert (Hlen : (2 <= length abc)%nat) by (simpl; lia).
  assert (Hi : 0 <= 2 < Z.of_nat (length abc)) by (simpl; lia).
  assert (Hms : 0 <= item_delay (abc !! Z.to_nat 2) <= 2147483647)
    by (vm_compute; split; discriminate).
  exact (proj1 (proj2 (proj2 (proj2 (auto_advance_cycle abc 2 0)))) Hlen Hi Hms).
Defined.

(** C9 as stated fails.  The item of 3,000,000 s, on display since 1000,
    is not held for its duration: its delay of 3,000,000,000 ms does not
    fit the timer, the item timer runs at once and the next item is on
    display 300 ms later.  And the item whose duration is 0, which is a
    duration, is held for 10 s. *)
Lemma advance_not_after_duration :
  item_delay (long_then_zero !! 0%nat) = 3000000 * 1000
  ∧ clock (tick (showing long_then_zero 0 1000)) = 1000
  ∧ isTransitioning (tick (showing long_then_zero 0 1000)) = true
  ∧ tick (tick (showing long_then_zero 0 1000)) = showing long_then_zero 1 1300
  ∧ (long_then_zero !! 1%nat) ≫= duration = Some 0
  ∧ clock (tick (showing long_then_zero 1 1300)) = 1300 + 10 * 1000.
Proof. vm_compute. repeat split; reflexivity. Qed.

Lemma setContent_index (new : list Content) (s : Display) :
  currentIndex (setContent new s) = currentIndex s ∧ playlist (setContent new s) = new.
Proof.
  unfold setContent, effect, startTimer, content_length. simpl.
  by destruct (Z.of_nat (length new) =? 0).
Qed.

(** C3 (amended). A new playlist leaves [currentIndex], the transition
    flag and the pending transition timeouts as they are; it only
    replaces the playlist and restarts the item timer, for the item of the
    new playlist at the old index.  So the index is 0 after a new
    playlist exactly when it was 0 before. *)
Theorem setContent_keeps_index (new : list Content) (s : Display) :
  currentIndex (setContent new s) = currentIndex s
  ∧ isTransitioning (setContent new s) = isTransitioning s
  ∧ commits (setContent new s) = commits s
  ∧ playlist (setContent new s) = new
  ∧ timerRef (setContent new s)
    = match new with
      | [] => None
      | _ => Some (clock s + setTimeout_delay (item_delay (currentContent (set_playlist new s))),
                   Z.of_nat (length new))
      end.
Proof.
  unfold setContent, effect, startTimer, content_length. simpl.
  destruct new as [|x new]; simpl; [done|].
  repeat split.
Qed.

Lemma reachable_showing_b : reachable abc showing_b.
Proof.
  unfold showing_b.
  eapply reach_step; [|apply step_tick].
  eapply reach_step; [|apply step_tick].
  apply reach_mount.
Qed.

(** C3 as stated fails: with item [b] of [[a; b; c]] on display, the new
    playlist [[x; y]] starts at index 1. *)
Lemma index_not_reset_on_sync :
  ¬ index_reset_on_sync abc [item "x" 5; item "y" 5].
Proof.
  intros H. specialize (H showing_b reachable_showing_b). vm_compute in H. discriminate H.
Qed.

(** *** The index invariant *)

Lemma inv_mount c t : fixed_playlist_inv c (mount c t).
Proof.
  unfold mount, effect, startTimer, content_length. simpl.
  destruct (Z.eqb_spec (Z.of_nat (length c)) 0) as [H0|H0]; simpl;
    (split; [done|]); (split; [done|]); (split; [intros; destruct c; simpl in *; [done|lia]|]);
    (split; [constructor|]); [done|by intros ? ? [= _ <-]].
Qed.

Lemma inv_effect c s : fixed_playlist_inv c s → fixed_playlist_inv c (effect s).
Proof.
  intros (Hp & H0 & Hi & Hc & Ht). unfold effect, startTimer, content_length. simpl.
  destruct (Z.of_nat (length (playlist s)) =? 0); simpl;
    repeat (split; [done|]); [done|]. intros ? ? [= _ <-]. by rewrite Hp.
Qed.

Lemma inv_transition c d len s :
  len = Z.of_nat (length c) → fixed_playlist_inv c s →
  fixed_playlist_inv c (transition d len s).
Proof.
  intros Hlen (Hp & H0 & Hi & Hc & Ht). unfold transition.
  destruct (Z.leb_spec len 1); [done|]. simpl.
  repeat (split; [done|]). split; [|done].
  apply Forall_app. split; [done|]. constructor; [|constructor]. simpl. lia.
Qed.

Lemma inv_set_clock c t s : fixed_playlist_inv c s → fixed_playlist_inv c (set_clock t s).
Proof. by intros (? & ? & ? & ? & ?). Qed.

Lemma inv_fire_timer c s : fixed_playlist_inv c s → fixed_playlist_inv c (fire_timer s).
Proof.
  intros Hinv. unfold fire_timer. destruct (timerRef s) as [[t len]|] eqn:Ht; [|done].
  apply inv_transition.
  - destruct Hinv as (_ & _ & _ & _ & Hlen). by apply (Hlen t).
  - destruct Hinv as (Hp & H0 & Hi & Hc & _). by repeat (split; [done|]).
Qed.

Lemma inv_fire_commit c s : fixed_playlist_inv c s → fixed_playlist_inv c (fire_commit s).
Proof.
  intros Hinv. unfold fire_commit.
  destruct (commits s) as [|cm rest] eqn:Hcm; [done|].
  destruct Hinv as (Hp & H0 & Hi & Hc & Ht). rewrite Hcm in Hc.
  apply Forall_cons in Hc as [[Hlen H2] Hrest].
  assert (Hnew : 0 <= advance (direction cm) (captured_length cm) (currentIndex s)
                 < Z.of_nat (length c)).
  { rewrite <- Hlen. destruct (direction cm);
      [by apply advance_forward_in_range|by apply advance_backward_in_range]. }
  set (i := advance (direction cm) (captured_length cm) (currentIndex s)) in *.
  clearbody i.
  assert (Hbase : fixed_playlist_inv c
            (set_isTransitioning false
               (set_currentIndex i (set_clock (due cm) (set_commits rest s))))).
  { split; [done|]. split; [simpl; lia|]. split; [simpl; intros; lia|]. by split. }
  destruct (_ =? _); [done|]. by apply inv_effect.
Qed.

Lemma inv_tick c s : fixed_playlist_inv c s → fixed_playlist_inv c (tick s).
Proof.
  intros Hinv. unfold tick.
  destruct (commits s) as [|cm rest] eqn:Hcm, (timerRef s) as [[t len]|] eqn:Ht;
    try destruct (due cm <=? t);
    first [done | by apply inv_fire_commit | by apply inv_fire_timer].
Qed.

Create HintDb display.
#[local] Hint Resolve inv_tick inv_set_clock inv_transition : display.
#[local] Hint Unfold clickNext clickPrevious nextContent previousContent : display.

Lemma inv_step c s s' : step s s' → fixed_playlist_inv c s → fixed_playlist_inv c s'.
Proof.
  intros Hstep Hinv.
  assert (Hlen : content_length s = Z.of_nat (length c)).
  { unfold content_length. by destruct Hinv as (-> & _). }
  destruct Hstep; autounfold with display;
    try destruct (buttons_enabled s); eauto with display.
Qed.

Lemma reachable_inv c s : reachable c s → fixed_playlist_inv c s.
Proof.
  induction 1 as [t|s s' _ IH Hstep]; [apply inv_mount|by eapply inv_step].
Qed.

(** C4 (amended). While the playlist stays the same, every state reached
    by timers, waiting, navigation and video events has
    [0 ≤ currentIndex < length] when the playlist is not empty.  A new
    playlist keeps the index, so the bound holds afterwards exactly when
    the new playlist is empty or longer than the index. *)
Theorem index_in_range_while_playlist_fixed (c : list Content) (s : Display) :
  reachable c s →
  index_in_range s
  ∧ playlist s = c
  ∧ ∀ new, index_in_range (setContent new s)
           ↔ (new = [] ∨ currentIndex s < Z.of_nat (length new)).
Proof.
  intros Hr. destruct (reachable_inv c s Hr) as (Hp & H0 & Hi & _).
  split; [|split; [done|]].
  - unfold index_in_range, content_length. rewrite Hp. intros Hne. split; [done|by apply Hi].
  - intros new.
    destruct (setContent_index new s) as (Hidx & Hpl).
    unfold index_in_range, content_length. rewrite Hidx, Hpl. split.
    + intros H. destruct new as [|x new]; [by left|]. right. by apply H.
    + intros [->|Hlt] Hne; [done|]. lia.
Qed.

Lemma index_in_range_while_playlist_fixed_witness :
  index_in_range showing_b
  ∧ playlist showing_b = abc
  ∧ ∀ new, index_in_range (setContent new showing_b)
           ↔ (new = [] ∨ currentIndex showing_b < Z.of_nat (length new)).
Proof.
  apply (index_in_range_while_playlist_fixed abc showing_b).
  unfold showing_b.
  eapply reach_step; [|apply step_tick].
  eapply reach_step; [|apply step_tick].
  apply reach_mount.
Defined.

(** C4 as stated fails: with item [b] of [[a; b; c]] on display, the new
    playlist [[x]] leaves [currentIndex] at 1, past its only item. *)
Lemma index_out_of_range_after_sync :
  ¬ (∀ s, reachable_with_sync s → index_in_range s).
Proof.
  intros H.
  assert (Hr : reachable_with_sync (setContent [item "x" 5] showing_b)).
  { apply sync_setContent. unfold showing_b.
    eapply sync_step; [|apply step_tick].
    eapply sync_step; [|apply step_tick].
    apply sync_mount. }
  specialize (H _ Hr). unfold index_in_range in H.
  assert (Hne : playlist (setContent [item "x" 5] showing_b) ≠ []) by done.
  specialize (H Hne). vm_compute in H. destruct H as [_ H]. discriminate H.
Qed.

(** * Further properties *)

(** *** Pairing codes and identity *)

Lemma pretty_six_digits (n : Z) :
  100000 <= n <= 999999 → String.length (pretty n) = 6%nat.
Proof.
  intros Hn. destruct n as [|p|p]; [lia| |lia].
  unfold pretty, pretty_Z, pretty, pretty_positive, pretty, pretty_N.
  destruct (decide (N.pos p = 0)%N) as [?|_]; [done|].
  set (x := N.pos p). assert (Hx : (100000 <= x <= 999999)%N) by lia. clearbody x.
  assert (Hd : ∀ a : N, (10 * (a `div` 10) <= a < 10 * (a `div` 10) + 10)%N).
  { intros a. pose proof (N.Div0.mul_div_le a 10).
    pose proof (N.mul_succ_div_gt a 10 ltac:(lia)).
    set (q := (a `div` 10)%N) in *. clearbody q. lia. }
  rewrite pretty_N_go_step by lia.
  pose proof (Hd x). set (x1 := (x `div` 10)%N) in *. clearbody x1.
  rewrite pretty_N_go_step by lia.
  pose proof (Hd x1). set (x2 := (x1 `div` 10)%N) in *. clearbody x2.
  rewrite pretty_N_go_step by lia.
  pose proof (Hd x2). set (x3 := (x2 `div` 10)%N) in *. clearbody x3.
  rewrite pretty_N_go_step by lia.
  pose proof (Hd x3). set (x4 := (x3 `div` 10)%N) in *. clearbody x4.
  rewrite pretty_N_go_step by lia.
  pose proof (Hd x4). set (x5 := (x4 `div` 10)%N) in *. clearbody x5.
  rewrite pretty_N_go_step by lia.
  pose proof (Hd x5). set (x6 := (x5 `div` 10)%N) in *. clearbody x6.
  assert (x6 = 0%N) as -> by lia.
  reflexivity.
Qed.

Lemma six_digits_truthy (n : Z) :
  100000 <= n <= 999999 → truthy (Some (pretty n)) = true.
Proof.
  intros Hn. pose proof (pretty_six_digits n Hn) as Hlen.
  simpl. destruct (pretty n); [discriminate Hlen|reflexivity].
Qed.

Lemma code_range (r : Z) : 100000 <= 100000 + r `mod` 900000 <= 999999.
Proof. pose proof (Z.mod_pos_bound r 900000 ltac:(lia)). lia. Qed.

(** X1. Whatever the random draw, [generateDeviceCode] gives the decimal
    text of a number between 100000 and 999999: six characters, never
    empty; it consumes one draw and touches nothing else. *)
Theorem generateDeviceCode_six_digits (w : World) :
  ∃ n, DeviceService.generateDeviceCode w = (Return (pretty n), with_draw w)
    ∧ 100000 <= n <= 999999
    ∧ String.length (pretty n) = 6%nat.
Proof.
  exists (100000 + entropy w (draws w) `mod` 900000).
  split; [reflexivity|]. split; [apply code_range|].
  apply pretty_six_digits, code_range.
Qed.

(** X2. With usable storage [getDeviceId] gives a non-empty id that is
    stored afterwards, removes the two legacy keys, keeps an id that was
    already stored without drawing a new one, and a second call changes
    nothing and gives the same id. *)
Theorem getDeviceId_stable (w : World) :
  storage_ok w = true →
  ∃ id w1, DeviceService.getDeviceId w = (Return id, w1)
    ∧ truthy (Some id) = true
    ∧ ls_device_id (localStorage w1) = Some id
    ∧ ls_device_code (localStorage w1) = None
    ∧ ls_device_code_timestamp (localStorage w1) = None
    ∧ (truthy (ls_device_id (localStorage w)) = true →
         ls_device_id (localStorage w) = Some id ∧ draws w1 = draws w)
    ∧ DeviceService.getDeviceId w1 = (Return id, w1).
Proof.
  intros Hok. unfold DeviceService.getDeviceId. eff_unfold.
  destruct w as [n e d ok ls ss o dv q ip]; simpl in *. subst ok. simpl.
  destruct ls as [i c1 c2 cc ct]; simpl.
  destruct i as [s|]; simpl.
  - destruct (negb (String.eqb s "")) eqn:Hs; simpl.
    + eexists _, _. split; [reflexivity|]. simpl. rewrite Hs.
      repeat (split; [done|]). reflexivity.
    + eexists _, _. split; [reflexivity|]. simpl. repeat (split; [done|]). reflexivity.
  - eexists _, _. split; [reflexivity|]. simpl. repeat (split; [done|]). reflexivity.
Qed.

Lemma getDeviceId_stable_witness :
  ∃ id w1, DeviceService.getDeviceId world_remote_content = (Return id, w1)
    ∧ truthy (Some id) = true
    ∧ ls_device_id (localStorage w1) = Some id
    ∧ ls_device_code (localStorage w1) = None
    ∧ ls_device_code_timestamp (localStorage w1) = None
    ∧ (truthy (ls_device_id (localStorage world_remote_content)) = true →
         ls_device_id (localStorage world_remote_content) = Some id
         ∧ draws w1 = draws world_remote_content)
    ∧ DeviceService.getDeviceId w1 = (Return id, w1).
Proof. apply (getDeviceId_stable world_remote_content). reflexivity. Defined.

Lemma getDeviceCode_stored (w : World) :
  storage_ok w = true →
  ∃ c w1, DeviceService.getDeviceCode w = (Return c, w1)
    ∧ truthy (Some c) = true
    ∧ ss_device_code (sessionStorage w1) = Some c
    ∧ (truthy (ss_device_code (sessionStorage w)) = true →
         ss_device_code (sessionStorage w) = Some c ∧ w1 = w)
    ∧ DeviceService.getDeviceCode w1 = (Return c, w1).
Proof.
  intros Hok. unfold DeviceService.getDeviceCode, DeviceService.generateDeviceCode.
  eff_unfold.
  destruct w as [n e d ok ls ss o dv q ip]; simpl in *. subst ok. simpl.
  destruct ss as [[s|]]; simpl.
  - destruct (negb (String.eqb s "")) eqn:Hs; simpl.
    + eexists _, _. split; [reflexivity|]. simpl. rewrite Hs. done.
    + pose proof (six_digits_truthy _ (code_range (e d))) as Ht. simpl in Ht.
      eexists _, _. split; [reflexivity|]. simpl. rewrite Ht. done.
  - pose proof (six_digits_truthy _ (code_range (e d))) as Ht. simpl in Ht.
    eexists _, _. split; [reflexivity|]. simpl. rewrite Ht. done.
Qed.

(** X3. With usable storage [getDeviceCode] gives a non-empty code that
    the session storage holds afterwards; a code already in the session is
    given back without any change of the world, so every later call in the
    session gives the same code. *)
Theorem getDeviceCode_session_stable (w : World) :
  storage_ok w = true →
  ∃ c w1, DeviceService.getDeviceCode w = (Return c, w1)
    ∧ truthy (Some c) = true
    ∧ ss_device_code (sessionStorage w1) = Some c
    ∧ (truthy (ss_device_code (sessionStorage w)) = true →
         ss_device_code (sessionStorage w) = Some c ∧ w1 = w)
    ∧ DeviceService.getDeviceCode w1 = (Return c, w1).
Proof. apply getDeviceCode_stored. Qed.

Lemma getDeviceCode_session_stable_witness :
  ∃ c w1, DeviceService.getDeviceCode world0 = (Return c, w1)
    ∧ truthy (Some c) = true
    ∧ ss_device_code (sessionStorage w1) = Some c
    ∧ (truthy (ss_device_code (sessionStorage world0)) = true →
         ss_device_code (sessionStorage world0) = Some c ∧ w1 = world0)
    ∧ DeviceService.getDeviceCode w1 = (Return c, w1).
Proof. apply (getDeviceCode_session_stable world0). reflexivity. Defined.

(** X4. [refreshDeviceCode] with usable storage replaces whatever code
    the session holds by a newly drawn six-digit code, which
    [getDeviceCode] gives from then on.  Without usable storage it throws
    (its [setItem] is not guarded), whereas [getDeviceCode] still answers,
    with a code drawn for that call only. *)
Theorem refreshDeviceCode_replaces_session_code (w : World) :
  let fresh := pretty (100000 + entropy w (draws w) `mod` 900000) in
  (storage_ok w = true →
     ∃ w1, DeviceService.refreshDeviceCode w = (Return fresh, w1)
       ∧ ss_device_code (sessionStorage w1) = Some fresh
       ∧ String.length fresh = 6%nat
       ∧ DeviceService.getDeviceCode w1 = (Return fresh, w1))
  ∧ (storage_ok w = false →
       DeviceService.refreshDeviceCode w = (Throw SecurityError, with_draw w)
       ∧ DeviceService.getDeviceCode w = (Return fresh, with_draw w)).
Proof.
  intros fresh. unfold DeviceService.refreshDeviceCode, DeviceService.getDeviceCode,
    DeviceService.generateDeviceCode. eff_unfold.
  destruct w as [n e d ok ls ss o dv q ip]; simpl in *.
  pose proof (six_digits_truthy _ (code_range (e d))) as Ht. simpl in Ht.
  split; intros ->; simpl.
  - eexists. split; [reflexivity|]. simpl. split; [done|].
    split; [apply pretty_six_digits, code_range|].
    fold fresh in Ht |- *. by rewrite Ht.
  - done.
Qed.

Lemma refreshDeviceCode_replaces_session_code_witness :
  (∃ w1, DeviceService.refreshDeviceCode world0 = (Return "654321", w1)
     ∧ DeviceService.getDeviceCode w1 = (Return "654321", w1))
  ∧ DeviceService.refreshDeviceCode world_no_storage
    = (Throw SecurityError, with_draw world_no_storage).
Proof.
  split.
  - destruct (proj1 (refreshDeviceCode_replaces_session_code world0) eq_refl)
      as (w1 & H1 & _ & _ & H2).
    exists w1. split; [exact H1|exact H2].
  - exact (proj1 (proj2 (refreshDeviceCode_replaces_session_code world_no_storage) eq_refl)).
Defined.

(** *** Cache *)

Lemma cacheContent_stores (items : list Content) (w : World) :
  storage_ok w = true →
  ∃ w', ContentService.cacheContent items w = (Return tt, w')
    ∧ storage_ok w' = true ∧ now w' = now w
    ∧ cached_content (localStorage w') = Some items
    ∧ cache_timestamp (localStorage w') = Some (now w).
Proof.
  intros Hok. unfold ContentService.cacheContent. eff_unfold.
  destruct w as [n e d ok ls ss o dv q ip]; simpl in *. subst ok. simpl.
  eexists. split; [reflexivity|]. done.
Qed.

(** X5. What [cacheContent] stores is what [getCachedContent] gives back,
    at any later time and whatever was cached before; [isCacheValid] says
    true exactly while less than 3600000 ms have passed since the write. *)
Theorem cache_round_trip (w : World) (items : list Content) (dt : Z) :
  storage_ok w = true →
  ∃ w1, ContentService.cacheContent items w = (Return tt, w1)
    ∧ ContentService.getCachedContent (with_now (now w + dt) w1)
      = (Return items, with_now (now w + dt) w1)
    ∧ ContentService.isCacheValid (with_now (now w + dt) w1)
      = (Return (bool_decide (dt < 3600000)), with_now (now w + dt) w1).
Proof.
  intros Hok. destruct (cacheContent_stores items w Hok) as (w1 & Hc & Hok1 & _ & Hcc & Hct).
  exists w1. split; [done|].
  unfold ContentService.getCachedContent, ContentService.isCacheValid. eff_unfold.
  destruct w1 as [n e d ok ls ss o dv q ip]; simpl in *. subst ok. simpl.
  rewrite Hcc, Hct. simpl. split; [done|].
  do 2 f_equal. apply bool_decide_ext. lia.
Qed.

Lemma cache_round_trip_witness :
  ∃ w1, ContentService.cacheContent abc world0 = (Return tt, w1)
    ∧ ContentService.getCachedContent (with_now (now world0 + 3599999) w1)
      = (Return abc, with_now (now world0 + 3599999) w1)
    ∧ ContentService.isCacheValid (with_now (now world0 + 3599999) w1)
      = (Return (bool_decide (3599999 < 3600000)), with_now (now world0 + 3599999) w1).
Proof. apply (cache_round_trip world0 abc 3599999). reflexivity. Defined.

(** X6. The cache degrades without throwing: without usable storage
    [cacheContent] stores nothing, and [getCachedContent] gives the empty
    list and [isCacheValid] false, as they do when their key is missing. *)
Theorem cache_degrades_silently (w : World) (items : list Content) :
  (storage_ok w = false → ContentService.cacheContent items w = (Return tt, w))
  ∧ (storage_ok w = false ∨ cached_content (localStorage w) = None →
       ContentService.getCachedContent w = (Return [], w))
  ∧ (storage_ok w = false ∨ cache_timestamp (localStorage w) = None →
       ContentService.isCacheValid w = (Return false, w)).
Proof.
  unfold ContentService.cacheContent, ContentService.getCachedContent,
    ContentService.isCacheValid. eff_unfold.
  split; [by intros ->|]. split.
  - intros [->| ->]; [done|]. by destruct (storage_ok w).
  - intros [->| ->]; [done|]. by destruct (storage_ok w).
Qed.

Lemma cache_degrades_silently_witness :
  ContentService.cacheContent abc world_no_storage = (Return tt, world_no_storage)
  ∧ ContentService.getCachedContent world0 = (Return [], world0)
  ∧ ContentService.isCacheValid world0 = (Return false, world0).
Proof.
  split; [|split].
  - exact (proj1 (cache_degrades_silently world_no_storage abc) eq_refl).
  - exact (proj1 (proj2 (cache_degrades_silently world0 abc)) (or_intror eq_refl)).
  - exact (proj2 (proj2 (cache_degrades_silently world0 abc)) (or_intror eq_refl)).
Defined.

Lemma getContentWithFallback_hit (w : World) :
  cache_fresh w = true → cached_playlist w ≠ [] →
  ContentService.getContentWithFallback w = (Return (cached_playlist w), w).
Proof.
  intros Hfresh Hne.
  unfold ContentService.getContentWithFallback, ContentService.getContentWithFallback_try.
  assert (Htry : try_catch
            (valid ← ContentService.isCacheValid;
             (if (valid : bool)
              then cachedContent ← ContentService.getCachedContent;
                   (if bool_decide (0 < length cachedContent)%nat
                    then mret (Some cachedContent) else ContentService.fetchFresh)
              else ContentService.fetchFresh))
            ContentService.getContentWithFallback_catch w
          = (Return (Some (cached_playlist w)), w)).
  { apply try_catch_returns.
    rewrite (bind_returns _ _ _ _ (isCacheValid_pure w)), Hfresh.
    rewrite (bind_returns _ _ _ _ (getCachedContent_pure w)).
    apply nonempty_length in Hne. by rewrite bool_decide_eq_true_2. }
  by rewrite (bind_returns _ _ _ _ Htry).
Qed.

(** X7. With a cache that is fresh and not empty,
    [getContentWithFallback] gives the cached playlist and leaves the
    whole world as it is: no random draw, no write to a storage. *)
Theorem fresh_cache_served_without_request (w : World) :
  cache_fresh w = true → cached_playlist w ≠ [] →
  ContentService.getContentWithFallback w = (Return (cached_playlist w), w).
Proof. apply getContentWithFallback_hit. Qed.

Lemma fresh_cache_served_without_request_witness :
  ContentService.getContentWithFallback world_fresh_cache
  = (Return (cached_playlist world_fresh_cache), world_fresh_cache).
Proof.
  apply (fresh_cache_served_without_request world_fresh_cache).
  - reflexivity.
  - discriminate.
Defined.

Lemma fetchFresh_caches (w : World) :
  storage_ok w = true → fetched (remote_answer w) ≠ [] →
  ∃ w', ContentService.fetchFresh w = (Return (Some (fetched (remote_answer w))), w')
    ∧ storage_ok w' = true ∧ now w' = now w
    ∧ cached_content (localStorage w') = Some (fetched (remote_answer w))
    ∧ cache_timestamp (localStorage w') = Some (now w).
Proof.
  intros Hok Hne. unfold ContentService.fetchFresh.
  destruct (getDeviceContent_spec w) as (w1 & Hw & Hok1 & Hnow & _).
  rewrite (bind_returns _ _ _ _ Hw).
  apply nonempty_length in Hne. rewrite bool_decide_eq_true_2 by done.
  destruct (cacheContent_stores (fetched (remote_answer w)) w1 ltac:(congruence))
    as (w2 & Hc & Hok2 & Hnow2 & Hcc & Hct).
  exists w2. rewrite (bind_returns _ _ _ _ Hc).
  split; [done|]. split; [done|]. split; [congruence|]. split; [done|congruence].
Qed.

(** X8. A playlist fetched by [getContentWithFallback] is written through:
    with usable storage, when the remote playlist is not empty and no
    fresh cache was served, every call during the next hour gives that
    same playlist and leaves the world as it is, whatever the remote side
    would answer by then. *)
Theorem fetched_playlist_survives_outage (w : World) (remote : list Content) :
  storage_ok w = true →
  ¬ (cache_fresh w = true ∧ cached_playlist w ≠ []) →
  remote_playlist w = Some remote → remote ≠ [] →
  ∃ w1, ContentService.getContentWithFallback w = (Return remote, w1)
    ∧ ∀ q dt, dt < 3600000 →
        ContentService.getContentWithFallback
          (with_content_query q (with_now (now w + dt) w1))
        = (Return remote, with_content_query q (with_now (now w + dt) w1)).
Proof.
  intros Hok Hmiss Hremote Hne. apply remote_playlist_fetched in Hremote.
  destruct (fetchFresh_caches w Hok ltac:(by rewrite Hremote))
    as (w1 & Hf & Hok1 & Hnow1 & Hcc & Hct).
  rewrite Hremote in *.
  exists w1. split.
  - unfold ContentService.getContentWithFallback.
    assert (Htry : ContentService.getContentWithFallback_try w = (Return (Some remote), w1)).
    { unfold ContentService.getContentWithFallback_try.
      rewrite (bind_returns _ _ _ _ (isCacheValid_pure w)).
      destruct (cache_fresh w) eqn:Hfresh; [|done].
      rewrite (bind_returns _ _ _ _ (getCachedContent_pure w)).
      case_bool_decide as Hlen; [|done].
      apply nonempty_length in Hlen. by destruct Hmiss. }
    by rewrite (bind_returns _ _ _ _ (try_catch_returns _ _ _ _ Htry _)).
  - intros q dt Hdt.
    set (later := with_content_query q (with_now (now w + dt) w1)).
    assert (Hcached : cached_playlist later = remote).
    { unfold cached_playlist, ContentService.getCachedContent. eff_unfold.
      unfold later. simpl. rewrite Hok1, Hcc. done. }
    assert (Hfresh : cache_fresh later = true).
    { unfold cache_fresh, ContentService.isCacheValid. eff_unfold.
      unfold later. simpl. rewrite Hok1, Hct. simpl.
      apply bool_decide_eq_true_2. lia. }
    rewrite <- Hcached at 1. apply getContentWithFallback_hit; [done|by rewrite Hcached].
Qed.

Lemma fetched_playlist_survives_outage_witness :
  ∃ w1, ContentService.getContentWithFallback world_remote_content
        = (Return [item "y" 5; item "z" 7], w1)
    ∧ ∀ q dt, dt < 3600000 →
        ContentService.getContentWithFallback
          (with_content_query q (with_now (now world_remote_content + dt) w1))
        = (Return [item "y" 5; item "z" 7],
           with_content_query q (with_now (now world_remote_content + dt) w1)).
Proof.
  apply (fetched_playlist_survives_outage world_remote_content).
  - reflexivity.
  - intros [H _]. discriminate H.
  - reflexivity.
  - discriminate.
Defined.

(** *** The content hook *)

Lemma default_nonempty (l : list Content) : is_default l → l ≠ [].
Proof. intros (c & s & ->). discriminate. Qed.

(** How [loadContent] ends: its [catch] block never runs. *)
Lemma loadContent_cases (h : ContentHook.HookState) (w : World) :
  let fresh := fetched (remote_answer w) in
  ∃ items w', ContentHook.loadContent h w
              = (Return (ContentHook.mkHook items false None), w')
    ∧ ((fresh ≠ [] ∧ items = fresh) ∨ (fresh = [] ∧ is_default items)).
Proof.
  intros fresh. unfold ContentHook.loadContent.
  destruct (getDeviceContent_spec w) as (w1 & Hw & _). fold fresh in Hw.
  case (decide (fresh = [])) as [Hempty|Hne].
  - destruct (getDefaultContent_returns w1) as (c & w2 & Hd & _).
    eexists _, w2. split; [|right; split; [done|apply defaultContent_is_default]].
    assert (Htry : ∀ handler, try_catch
              (freshContent ← ContentService.getDeviceContent;
               (if bool_decide (0 < length freshContent)%nat
                then ContentService.cacheContent freshContent;;
                     ContentService.preloadMedia freshContent;;
                     mret (ContentHook.mkHook freshContent true None)
                else d ← ContentService.getDefaultContent;
                     mret (ContentHook.mkHook d true None)))
              handler w
            = (Return (ContentHook.mkHook
                 (ContentService.defaultContent c (toISOString (now w1))) true None), w2)).
    { intros handler. apply try_catch_returns. rewrite (bind_returns _ _ _ _ Hw), Hempty.
      simpl. by rewrite (bind_returns _ _ _ _ Hd). }
    by rewrite (bind_returns _ _ _ _ (Htry _)).
  - destruct (cacheContent_returns fresh w1) as (w2 & Hc).
    exists fresh, w2. split; [|by left].
    assert (Htry : ∀ handler, try_catch
              (freshContent ← ContentService.getDeviceContent;
               (if bool_decide (0 < length freshContent)%nat
                then ContentService.cacheContent freshContent;;
                     ContentService.preloadMedia freshContent;;
                     mret (ContentHook.mkHook freshContent true None)
                else d ← ContentService.getDefaultContent;
                     mret (ContentHook.mkHook d true None)))
              handler w
            = (Return (ContentHook.mkHook fresh true None), w2)).
    { intros handler. apply try_catch_returns. rewrite (bind_returns _ _ _ _ Hw).
      apply nonempty_length in Hne. rewrite bool_decide_eq_true_2 by done.
      by rewrite (bind_returns _ _ _ _ Hc). }
    by rewrite (bind_returns _ _ _ _ (Htry _)).
Qed.

(** How a debounced refresh ends. *)
Lemma refresh_cases (h : ContentHook.HookState) (w : World) :
  let fresh := fetched (remote_answer w) in
  ∃ items w', ContentHook.refresh h w
              = (Return (ContentHook.mkHook items false None), w')
    ∧ ((fresh ≠ [] ∧ items = fresh)
       ∨ (fresh = [] ∧ is_default items
          ∧ (storage_ok w = true →
               cached_content (localStorage w') = None
               ∧ cache_timestamp (localStorage w') = None))).
Proof.
  intros fresh. unfold ContentHook.refresh.
  destruct (getDeviceContent_spec w) as (w1 & Hw & Hok1 & _). fold fresh in Hw.
  unfold try_catch at 1. rewrite (bind_returns _ _ _ _ Hw).
  unfold ContentHook.onContentUpdate_state, ContentHook.onContentUpdate_storage.
  case (decide (fresh = [])) as [Hempty|Hne].
  - rewrite Hempty. simpl.
    destruct (getDefaultContent_returns w1) as (c & w2 & Hd & _ & Hok2).
    rewrite (bind_returns _ _ _ _ (bind_returns _ _ _ _ Hd _)).
    eff_unfold. destruct w2 as [n e d ok ls ss o dv q ip]; simpl in *.
    destruct ok; simpl; eexists _, _; (split; [reflexivity|]); right;
      (split; [done|]); (split; [apply defaultContent_is_default|]); [done|].
    intros Hok. congruence.
  - pose proof (proj2 (nonempty_length fresh) Hne) as Hlen.
    rewrite !bool_decide_eq_true_2 by done.
    unfold ContentService.cacheContent, ContentService.preloadMedia. eff_unfold.
    destruct w1 as [n e d ok ls ss o dv q ip]; simpl.
    destruct ok; simpl; eexists _, _; (split; [reflexivity|]); by left.
Qed.

(** X9. Once the pairing state is known the hook always has something to
    show: the effect on [isPaired] and every debounced refresh return
    (they never throw) with a playlist that is not empty and with
    [loading] off. *)
Theorem hook_playlist_never_empty (h : ContentHook.HookState) (w : World) :
  (∀ isPaired, ∃ h' w', ContentHook.onPairedChange isPaired h w = (Return h', w')
     ∧ ContentHook.hk_content h' ≠ [] ∧ ContentHook.loading h' = false)
  ∧ (∃ h' w', ContentHook.refresh h w = (Return h', w')
       ∧ ContentHook.hk_content h' ≠ [] ∧ ContentHook.loading h' = false).
Proof.
  split.
  - intros [|]; unfold ContentHook.onPairedChange; simpl.
    + destruct (loadContent_cases h w) as (items & w' & Hl & Hcase).
      eexists _, w'. split; [exact Hl|]. split; [|done]. simpl.
      destruct Hcase as [[Hne ->]|[_ Hd]]; [done|by apply default_nonempty].
    + destruct (getDefaultContent_returns w) as (c & w' & Hd & _).
      rewrite (bind_returns _ _ _ _ Hd). eexists _, _. split; [reflexivity|]. done.
  - destruct (refresh_cases h w) as (items & w' & Hr & Hcase).
    eexists _, w'. split; [exact Hr|]. split; [|done]. simpl.
    destruct Hcase as [[Hne ->]|(_ & Hd & _)]; [done|by apply default_nonempty].
Qed.

(** X10. [loadContent] never reports an error: whatever the remote query
    answers, failures included, it ends with [error] null and [loading]
    off, showing the fetched playlist when it is not empty and the
    built-in playlist otherwise.  Its messages for a failed load and for
    cached content are never set. *)
Theorem loadContent_never_reports_error (h : ContentHook.HookState) (w : World) :
  ∃ h' w', ContentHook.loadContent h w = (Return h', w')
    ∧ ContentHook.error h' = None
    ∧ ContentHook.loading h' = false
    ∧ (fetched (remote_answer w) ≠ [] →
         ContentHook.hk_content h' = fetched (remote_answer w))
    ∧ (fetched (remote_answer w) = [] → is_default (ContentHook.hk_content h'))
    ∧ (fetch_fails w → is_default (ContentHook.hk_content h')).
Proof.
  destruct (loadContent_cases h w) as (items & w' & Hl & Hcase).
  eexists _, w'. split; [exact Hl|]. simpl. split; [done|]. split; [done|].
  assert (Hfail : fetch_fails w → fetched (remote_answer w) = []).
  { unfold fetch_fails. by destruct (remote_answer w) as [[?|] [?|]|?]. }
  destruct Hcase as [[Hne ->]|[He Hd]].
  - split; [done|]. split; [done|]. intros Hf. by destruct Hne; apply Hfail.
  - split; [done|]. done.
Qed.

(** X11. A debounced refresh whose fetch fails is taken for an empty
    playlist: with usable storage it shows the built-in playlist and
    removes both cache keys, whatever the cache held. *)
Theorem failed_refresh_clears_cache (h : ContentHook.HookState) (w : World) :
  storage_ok w = true → fetch_fails w →
  ∃ h' w', ContentHook.refresh h w = (Return h', w')
    ∧ is_default (ContentHook.hk_content h')
    ∧ cached_content (localStorage w') = None
    ∧ cache_timestamp (localStorage w') = None.
Proof.
  intros Hok Hfail.
  assert (Hf : fetched (remote_answer w) = []).
  { unfold fetch_fails in Hfail. by destruct (remote_answer w) as [[?|] [?|]|?]. }
  destruct (refresh_cases h w) as (items & w' & Hr & [[Hne _]|(_ & Hd & Hclear)]); [done|].
  eexists _, w'. split; [exact Hr|]. split; [done|]. by apply Hclear.
Qed.

Lemma failed_refresh_clears_cache_witness :
  cached_playlist world_fetch_error = [item "x" 5]
  ∧ ∃ h' w', ContentHook.refresh ContentHook.initial world_fetch_error = (Return h', w')
      ∧ is_default (ContentHook.hk_content h')
      ∧ cached_content (localStorage w') = None
      ∧ cache_timestamp (localStorage w') = None.
Proof.
  split; [reflexivity|].
  apply (failed_refresh_clears_cache ContentHook.initial world_fetch_error).
  - reflexivity.
  - exact I.
Defined.

(** X12. For an unpaired device the hook shows the built-in playlist and
    leaves the local storage, the remote table and the transport failures
    to come as they are; only a pairing code may be drawn for the
    session. *)
Theorem unpaired_shows_default_offline (h : ContentHook.HookState) (w : World) :
  ∃ h' w', ContentHook.onPairedChange false h w = (Return h', w')
    ∧ is_default (ContentHook.hk_content h')
    ∧ localStorage w' = localStorage w
    ∧ devices w' = devices w
    ∧ outages w' = outages w.
Proof.
  unfold ContentHook.onPairedChange, ContentService.getDefaultContent. simpl.
  destruct (getDeviceCode_frame w) as (c & w' & Hc & Hdv & Hout & _ & Hls).
  unfold get_world at 1. unfold mbind at 1 2, eff_bind at 1 2.
  rewrite (bind_returns _ _ _ _ Hc).
  eexists _, _. split; [reflexivity|]. simpl.
  split; [apply defaultContent_is_default|]. done.
Qed.

(** *** Registration and status *)

Lemma registerDevice_update_row id code existing w r w' :
  devices w !! id = Some existing →
  DeviceService.registerDevice_update id code existing w = (r, w') →
  ((∃ e, r = Throw e) ∧ devices w' = devices w)
  ∨ (∃ d, r = Return d ∧ devices w' = <[id := d]> (devices w)
          ∧ registered id code (Some existing) d).
Proof.
  intros Hex. device_unfold. destruct w as [n e d ok ls ss o dv q ip]; simpl in *.
  destruct o as [|[] o]; simpl; rewrite ?Hex; simpl; intros [= <- <-]; simpl; eauto.
  all: right; eexists; split; [done|]; split; [done|]; unfold registered; simpl;
    repeat (split; [done|]); destruct (truthy (d_user_id existing)) eqn:Ht; simpl; eauto.
Qed.

Lemma registerDevice_create_row id code w r w' :
  DeviceService.registerDevice_create id code w = (r, w') →
  ((∃ e, r = Throw e) ∧ devices w' = devices w)
  ∨ (∃ d, r = Return d ∧ devices w' = <[id := d]> (devices w)
          ∧ registered id code (devices w !! id) d).
Proof.
  device_unfold. destruct w as [n e d ok ls ss o dv q ip]; simpl.
  destruct o as [|[] [|[] o]]; simpl; destruct (dv !! id) eqn:E; simpl;
    rewrite ?E; simpl; intros [= <- <-]; simpl; eauto.
  all: right; eexists; split; [done|]; split; [done|]; unfold registered; simpl;
    repeat (split; [done|]); eauto.
Qed.

(** What a registration does, whichever way it ends. *)
Lemma registerDevice_effect (w w' : World) (r : Completion Device) :
  DeviceService.registerDevice w = (r, w') →
  ∃ id code wa wb,
    DeviceService.getDeviceId w = (Return id, wa)
    ∧ DeviceService.getDeviceCode wa = (Return code, wb)
    ∧ (((∃ e, r = Throw e) ∧ devices w' = devices w)
       ∨ (∃ d, r = Return d ∧ devices w' = <[id := d]> (devices w)
               ∧ registered id code (devices w !! id) d)).
Proof.
  intros H. apply registerDevice_inv in H as (id & c & wa & wb & wc & check & Hid & Hc & Hs & H).
  destruct (getDeviceId_frame w) as (? & ? & Hid' & Hda & _).
  rewrite Hid in Hid'. injection Hid' as <- <-.
  destruct (getDeviceCode_frame wa) as (? & ? & Hc' & Hdb & _).
  rewrite Hc in Hc'. injection Hc' as <- <-.
  apply select_device_spec in Hs as (Hdc & _ & Hrow).
  assert (Hdv : devices wc = devices w) by congruence.
  exists id, c, wa, wb. split; [done|]. split; [done|]. rewrite <- Hdv.
  destruct check as [existing|e].
  - assert (Hex : devices wc !! id = Some existing).
    { rewrite Hdc. by apply Hrow. }
    rewrite Hex. by apply registerDevice_update_row.
  - by apply registerDevice_create_row.
Qed.

(** X13. A registration that succeeds returns the record that the remote
    table then holds under the device id, with the session's pairing code
    and marked online. *)
Theorem registerDevice_success_record (w w' : World) (d : Device) :
  DeviceService.registerDevice w = (Return d, w') →
  ∃ id code wa wb,
    DeviceService.getDeviceId w = (Return id, wa)
    ∧ DeviceService.getDeviceCode wa = (Return code, wb)
    ∧ devices w' !! id = Some d
    ∧ device_code d = code
    ∧ is_online d = true.
Proof.
  intros H. apply registerDevice_effect in H
    as (id & c & wa & wb & Hid & Hc & [[[e [=]] _]|(d' & [= <-] & Hw' & Hc' & Hon & _)]).
  exists id, c, wa, wb. rewrite Hw', lookup_insert_eq. done.
Qed.

Lemma registerDevice_success_record_witness :
  ∃ d w', DeviceService.registerDevice world_paired = (Return d, w')
    ∧ devices w' !! "dev-1" = Some d ∧ device_code d = "123456" ∧ is_online d = true.
Proof.
  destruct (DeviceService.registerDevice world_paired) as [[d|e] w'] eqn:E;
    [|vm_compute in E; discriminate E].
  exists d, w'. split; [reflexivity|].
  destruct (registerDevice_success_record world_paired w' d E)
    as (id & c & wa & wb & Hid & Hc & Hd & Hcode & Hon).
  vm_compute in Hid. injection Hid as <- <-.
  vm_compute in Hc. injection Hc as <- <-.
  done.
Defined.

(** X14. Whichever way a registration ends, it removes no record, leaves
    every record but the device's own untouched, and never changes the
    owner or the id of a record: registering neither pairs nor unpairs. *)
Theorem registerDevice_keeps_owners (w w' : World) (r : Completion Device) :
  DeviceService.registerDevice w = (r, w') →
  (∀ k old, devices w !! k = Some old →
     ∃ d, devices w' !! k = Some d ∧ d_user_id d = d_user_id old ∧ d_id d = d_id old)
  ∧ (∀ id k, returns DeviceService.getDeviceId w id → k ≠ id →
       devices w' !! k = devices w !! k).
Proof.
  intros H. apply registerDevice_effect in H
    as (id & c & wa & wb & Hid & Hc & [[_ Hw']|(d & _ & Hw' & _ & _ & Hreg)]);
    rewrite Hw'.
  - split; [by eauto|done].
  - split.
    + intros k old Hk. destruct (decide (id = k)) as [->|Hne].
      * rewrite lookup_insert_eq. rewrite Hk in Hreg. destruct Hreg as (? & ? & _). eauto.
      * rewrite lookup_insert_ne by done. eauto.
    + intros id' k (wa' & Hid') Hne. rewrite Hid in Hid'. injection Hid' as <- <-.
      by rewrite lookup_insert_ne.
Qed.

Lemma registerDevice_keeps_owners_witness :
  ∃ r w', DeviceService.registerDevice world_paired = (r, w')
    ∧ ∃ d, devices w' !! "dev-1" = Some d ∧ d_user_id d = Some "user-9".
Proof.
  destruct (DeviceService.registerDevice world_paired) as [r w'] eqn:E.
  exists r, w'. split; [reflexivity|].
  destruct (proj1 (registerDevice_keeps_owners world_paired w' r E) "dev-1" paired_record eq_refl)
    as (d & Hd & Hu & _).
  exists d. split; [exact Hd|exact Hu].
Defined.

Lemma registerDevice_failure_atomic (w w' : World) (e : Error) :
  DeviceService.registerDevice w = (Throw e, w') → devices w' = devices w.
Proof.
  intros H. apply registerDevice_effect in H
    as (id & c & wa & wb & _ & _ & [[_ Hw']|(d & [=] & _)]). done.
Qed.

(** X15. A registration that throws has changed nothing in the remote
    table, whichever call failed; the storages keep the id and the code
    that were read or created on the way. *)
Theorem registerDevice_failure_changes_nothing (w w' : World) (e : Error) :
  DeviceService.registerDevice w = (Throw e, w') →
  devices w' = devices w
  ∧ ∃ id code wa wb,
      DeviceService.getDeviceId w = (Return id, wa)
      ∧ DeviceService.getDeviceCode wa = (Return code, wb)
      ∧ localStorage w' = localStorage wb ∧ sessionStorage w' = sessionStorage wb.
Proof.
  intros H. split; [by apply (registerDevice_failure_atomic w w' e)|].
  apply registerDevice_inv in H as (id & c & wa & wb & wc & check & Hid & Hc & Hs & H).
  exists id, c, wa, wb. split; [done|]. split; [done|].
  apply select_device_spec in Hs as (_ & (_ & Hls & Hss) & _).
  destruct check as [existing|e'].
  - apply registerDevice_update_spec in H as ((_ & Hls' & Hss') & _). split; congruence.
  - apply registerDevice_create_spec in H as ((_ & Hls' & Hss') & _). split; congruence.
Qed.

(** An unreachable service: the check and the insert both fail. *)
Lemma registerDevice_failure_changes_nothing_witness :
  ∃ e w', DeviceService.registerDevice (with_outages (λ _, [true; true]) world_paired)
          = (Throw e, w')
    ∧ devices w' = devices world_paired.
Proof.
  destruct (DeviceService.registerDevice (with_outages (λ _, [true; true]) world_paired))
    as [[d|e] w'] eqn:E; [vm_compute in E; discriminate E|].
  exists e, w'. split; [reflexivity|].
  exact (proj1 (registerDevice_failure_changes_nothing _ w' e E)).
Defined.

(** X16. Re-registering a record without owner renames it after the
    session's code only when the existence check answered.  When the check
    fails in transport and the insert then meets the existing key, the
    fallback update sets the new code and keeps the old name. *)
Theorem unpaired_rename_needs_check
    (w wa wb : World) (id code : string) (old : Device) :
  DeviceService.getDeviceId w = (Return id, wa) →
  DeviceService.getDeviceCode wa = (Return code, wb) →
  devices w !! id = Some old →
  truthy (d_user_id old) = false →
  (outages w = [] →
     ∃ d w', DeviceService.registerDevice w = (Return d, w')
       ∧ device_code d = code ∧ device_name d = "Pi Display " +:+ code)
  ∧ (outages w = [true] →
       ∃ d w', DeviceService.registerDevice w = (Return d, w')
         ∧ device_code d = code ∧ device_name d = device_name old).
Proof.
  intros Hid Hc Hold Hunpaired.
  destruct (getDeviceId_frame w) as (? & ? & Hid' & Hda & Hoa & _).
  rewrite Hid in Hid'. injection Hid' as <- <-.
  destruct (getDeviceCode_frame wa) as (? & ? & Hc' & Hdb & Hob & _).
  rewrite Hc in Hc'. injection Hc' as <- <-.
  assert (Hdv : devices wb !! id = Some old) by (by rewrite Hdb, Hda).
  assert (Hout : outages wb = outages w) by congruence.
  unfold DeviceService.registerDevice.
  rewrite (bind_returns _ _ _ _ Hid), (bind_returns _ _ _ _ Hc).
  clear Hid Hc Hda Hoa Hdb Hob.
  device_unfold. destruct wb as [n e d ok ls ss o dv q ip]; simpl in *.
  split; intros Ho; rewrite Ho in Hout; subst o; simpl;
    repeat (rewrite Hdv; simpl); rewrite ?Hunpaired; simpl;
    eexists _, _; (split; [reflexivity|]); done.
Qed.

Lemma unpaired_rename_needs_check_witness :
  (∃ d w', DeviceService.registerDevice
             (with_session (λ _, mkSession (Some "777777")) world_unpaired) = (Return d, w')
     ∧ device_code d = "777777" ∧ device_name d = "Pi Display 777777")
  ∧ (∃ d w', DeviceService.registerDevice
               (with_outages (λ _, [true])
                  (with_session (λ _, mkSession (Some "777777")) world_unpaired))
             = (Return d, w')
       ∧ device_code d = "777777" ∧ device_name d = "Pi Display 123456").
Proof.
  split.
  - eapply (proj1 (unpaired_rename_needs_check
                     (with_session (λ _, mkSession (Some "777777")) world_unpaired)
                     _ _ "dev-1" "777777" unpaired_record
                     eq_refl eq_refl eq_refl eq_refl)).
    reflexivity.
  - eapply (proj2 (unpaired_rename_needs_check
                     (with_outages (λ _, [true])
                        (with_session (λ _, mkSession (Some "777777")) world_unpaired))
                     _ _ "dev-1" "777777" unpaired_record
                     eq_refl eq_refl eq_refl eq_refl)).
    reflexivity.
Defined.

(** X17. The heartbeat [updateDeviceStatus] never throws, creates and
    removes no record, and leaves id, code, name, owner and network data of
    every record as they are; when the service answers and the device has
    a record, that record gets the given online flag and the current time. *)
Theorem updateDeviceStatus_touches_status_only (isOnline : bool) (w : World) :
  ∃ w', DeviceService.updateDeviceStatus isOnline w = (Return tt, w')
    ∧ (∀ k, devices w !! k = None → devices w' !! k = None)
    ∧ (∀ k old, devices w !! k = Some old →
         ∃ d, devices w' !! k = Some d
           ∧ d_id d = d_id old ∧ device_code d = device_code old
           ∧ device_name d = device_name old ∧ d_user_id d = d_user_id old
           ∧ wifi_ssid d = wifi_ssid old ∧ ip_address d = ip_address old)
    ∧ (∀ id old, returns DeviceService.getDeviceId w id →
         devices w !! id = Some old → outages w = [] →
         ∃ d, devices w' !! id = Some d
           ∧ is_online d = isOnline ∧ last_seen d = toISOString (now w)).
Proof.
  unfold DeviceService.updateDeviceStatus.
  destruct (getDeviceId_frame w) as (id & wa & Hid & Hda & Hoa & _).
  destruct (getDeviceId_returns w) as (? & ? & Hid' & _ & _ & Hnow & _).
  rewrite Hid in Hid'. injection Hid' as <- <-.
  rewrite (bind_returns _ _ _ _ Hid).
  unfold update_device_rows, transport_fails. eff_unfold.
  destruct wa as [n e d ok ls ss o dv q ip]; simpl in *. subst dv o n.
  destruct (outages w) as [|[] o] eqn:Ho; simpl.
  - destruct (devices w !! id) as [old|] eqn:Hold; simpl.
    + eexists. split; [reflexivity|]. simpl. split; [|split].
      * intros k Hk. rewrite lookup_insert_ne; [done|]. intros ->. congruence.
      * intros k old' Hk. destruct (decide (id = k)) as [->|Hne].
        -- rewrite lookup_insert_eq. eexists. split; [done|].
           rewrite Hold in Hk. injection Hk as <-. done.
        -- rewrite lookup_insert_ne by done. eauto 10.
      * intros id' old' (wa' & Hid') Hk _. rewrite Hid in Hid'. injection Hid' as <- _.
        rewrite lookup_insert_eq. eexists. split; [done|]. done.
    + eexists. split; [reflexivity|]. simpl. split; [done|]. split; [eauto 10|].
      intros id' old' (wa' & Hid') Hk _. rewrite Hid in Hid'. injection Hid' as <- _.
      congruence.
  - eexists. split; [reflexivity|]. simpl. split; [done|]. split; [eauto 10|]. done.
  - destruct (devices w !! id) as [old|] eqn:Hold; simpl.
    + eexists. split; [reflexivity|]. simpl. split; [|split].
      * intros k Hk. rewrite lookup_insert_ne; [done|]. intros ->. congruence.
      * intros k old' Hk. destruct (decide (id = k)) as [->|Hne].
        -- rewrite lookup_insert_eq. eexists. split; [done|].
           rewrite Hold in Hk. injection Hk as <-. done.
        -- rewrite lookup_insert_ne by done. eauto 10.
      * done.
    + eexists. split; [reflexivity|]. simpl. split; [done|]. split; [eauto 10|]. done.
Qed.

Lemma select_device_outcome (id : string) (w : World) :
  ∃ r w', select_device id w = (Return r, w')
    ∧ devices w' = devices w ∧ same_storage w w'
    ∧ (∀ d, r = Row d → devices w !! id = Some d)
    ∧ (∀ rest, outages w = true :: rest → ∃ e, r = Failed e)
    ∧ (outages w = [] → ∀ d, devices w !! id = Some d → r = Row d).
Proof.
  device_unfold. destruct w as [n e d ok ls ss o dv q ip]; simpl.
  destruct o as [|[] o]; simpl; try destruct (dv !! id) eqn:E; simpl;
    eexists _, _; (split; [reflexivity|]); simpl;
    (split; [done|]); (split; [done|]);
    repeat split; intros; simplify_eq; eauto.
Qed.

(** X18. [isDevicePaired] never throws and changes nothing in the remote
    table.  It says true only when the device has a record with an owner;
    with a service that answers it says exactly whether the record has an
    owner, and a transport failure reads as unpaired. *)
Theorem isDevicePaired_sound (w : World) :
  ∃ b w', DeviceService.isDevicePaired w = (Return b, w')
    ∧ devices w' = devices w
    ∧ (b = true → ∃ id old, returns DeviceService.getDeviceId w id
                    ∧ devices w !! id = Some old ∧ truthy (d_user_id old) = true)
    ∧ (∀ rest, outages w = true :: rest → b = false)
    ∧ (outages w = [] → ∀ id old, returns DeviceService.getDeviceId w id →
         devices w !! id = Some old → b = truthy (d_user_id old)).
Proof.
  unfold DeviceService.isDevicePaired.
  destruct (getDeviceId_frame w) as (id & wa & Hid & Hda & Hoa & _).
  rewrite (bind_returns _ _ _ _ Hid).
  destruct (select_device_outcome id wa) as (r & wc & Hs & Hdc & _ & Hrow & Hdown & Hup).
  unfold try_catch. rewrite (bind_returns _ _ _ _ Hs).
  rewrite Hda, Hoa in *.
  destruct r as [d|e]; eexists _, _; (split; [reflexivity|]); (split; [congruence|]).
  - split; [|split].
    + intros Hb. exists id, d. split; [by exists wa|]. split; [by apply Hrow|done].
    + intros rest Ho. by destruct (Hdown rest Ho).
    + intros Ho id' old (wa' & Hid') Hold. rewrite Hid in Hid'. injection Hid' as <- _.
      specialize (Hup Ho old Hold). by injection Hup as ->.
  - split; [done|]. split; [done|].
    intros Ho id' old (wa' & Hid') Hold. rewrite Hid in Hid'. injection Hid' as <- _.
    by specialize (Hup Ho old Hold).
Qed.

Lemma isDevicePaired_sound_witness :
  DeviceService.isDevicePaired world_paired = (Return true, world_paired)
  ∧ (DeviceService.isDevicePaired (with_outages (λ _, [true]) world_paired)).1
    = Return false.
Proof.
  split.
  - vm_compute. reflexivity.
  - destruct (isDevicePaired_sound (with_outages (λ _, [true]) world_paired))
      as (b & w' & Hp & _ & _ & Hdown & _).
    rewrite Hp. simpl. f_equal. exact (Hdown [] eq_refl).
Defined.

Lemma getDeviceInfo_frame (w : World) :
  ∃ info w', DeviceService.getDeviceInfo w = (Return info, w') ∧ devices w' = devices w.
Proof.
  unfold DeviceService.getDeviceInfo.
  destruct (getDeviceId_frame w) as (id & wa & Hid & Hda & _).
  rewrite (bind_returns _ _ _ _ Hid).
  destruct (select_device_outcome id wa) as (r & wc & Hs & Hdc & _).
  unfold try_catch. rewrite (bind_returns _ _ _ _ Hs).
  destruct r; eexists _, _; (split; [reflexivity|congruence]).
Qed.

Lemma isDevicePaired_owner (w : World) :
  ∃ b w', DeviceService.isDevicePaired w = (Return b, w')
    ∧ devices w' = devices w
    ∧ (b = true → ∃ k old, devices w !! k = Some old ∧ truthy (d_user_id old) = true).
Proof.
  unfold DeviceService.isDevicePaired.
  destruct (getDeviceId_frame w) as (id & wa & Hid & Hda & _).
  rewrite (bind_returns _ _ _ _ Hid).
  destruct (select_device_outcome id wa) as (r & wc & Hs & Hdc & _ & Hrow & _).
  unfold try_catch. rewrite (bind_returns _ _ _ _ Hs).
  destruct r as [d|e]; eexists _, _; (split; [reflexivity|]); (split; [congruence|]);
    [|done].
  intros Hb. exists id, d. split; [|done]. rewrite <- Hda. by apply Hrow.
Qed.

(** X19. [initializeDevice] of the status hook never throws and always
    ends with [loading] off.  When the registration throws, pairing state,
    device and online flag stay as they were; when it succeeds the online
    flag is the browser's, and the device counts as paired only if some
    record of the remote table has an owner. *)
Theorem initializeDevice_settles (onLine : bool) (s : DeviceStatus.Status) (w : World) :
  ∃ s' w', DeviceStatus.initializeDevice onLine s w = (Return s', w')
    ∧ DeviceStatus.loading s' = false
    ∧ (∀ e w1, DeviceService.registerDevice w = (Throw e, w1) →
         DeviceStatus.isPaired s' = DeviceStatus.isPaired s
         ∧ DeviceStatus.device s' = DeviceStatus.device s
         ∧ DeviceStatus.isOnline s' = DeviceStatus.isOnline s
         ∧ devices w' = devices w)
    ∧ (∀ d w1, DeviceService.registerDevice w = (Return d, w1) →
         DeviceStatus.isOnline s' = onLine
         ∧ (DeviceStatus.isPaired s' = true →
              ∃ k old, devices w' !! k = Some old ∧ truthy (d_user_id old) = true)
         ∧ (DeviceStatus.isPaired s' = false →
              DeviceStatus.device s' = DeviceStatus.device s)).
Proof.
  unfold DeviceStatus.initializeDevice.
  destruct (DeviceService.registerDevice w) as [[d|e] w1] eqn:Hreg.
  - destruct (isDevicePaired_owner w1) as (b & w2 & Hp & Hd2 & Hown).
    destruct (getDeviceInfo_frame w2) as (info & w3 & Hi & Hd3).
    destruct b.
    + eexists _, w3. split.
      { unfold try_catch. unfold mbind at 1, eff_bind at 1.
        rewrite (bind_returns _ _ _ _ Hreg), (bind_returns _ _ _ _ Hp).
        rewrite (bind_returns _ _ _ _ Hi). reflexivity. }
      simpl. split; [done|]. split; [by intros ? ? [=]|].
      intros ? ? _. split; [done|]. split; [|done].
      intros _. destruct (Hown eq_refl) as (k & old & Hk & Ht).
      exists k, old. by rewrite Hd3, Hd2.
    + eexists _, w2. split.
      { unfold try_catch. unfold mbind at 1, eff_bind at 1.
        rewrite (bind_returns _ _ _ _ Hreg), (bind_returns _ _ _ _ Hp). reflexivity. }
      simpl. split; [done|]. split; [by intros ? ? [=]|].
      intros ? ? _. done.
  - eexists _, w1. split.
    { unfold try_catch. unfold mbind at 1 2, eff_bind at 1 2. rewrite Hreg. reflexivity. }
    simpl. split; [done|]. split; [|by intros ? ? [=]].
    intros ? ? _. repeat (split; [done|]).
    by apply (registerDevice_failure_atomic w w1 e).
Qed.

(** *** The pairing screen *)

Lemma countdown_run (p : DevicePairing.Pairing) (k : nat) :
  DevicePairing.isPaired p = false →
  Z.of_nat k < DevicePairing.countdown p →
  Nat.iter k DevicePairing.countdownTick p
  = DevicePairing.mkPairing (DevicePairing.deviceCode p) (DevicePairing.qrData p)
      false (DevicePairing.device p) (DevicePairing.countdown p - Z.of_nat k).
Proof.
  intros Hp. induction k as [|k IH]; intros Hk.
  - simpl. destruct p; simpl in *. subst. f_equal. lia.
  - change (Nat.iter (S k) ?f ?x) with (f (Nat.iter k f x)).
    rewrite IH by lia. unfold DevicePairing.countdownTick. simpl.
    destruct (Z.leb_spec (DevicePairing.countdown p - Z.of_nat k) 1); [lia|].
    f_equal. lia.
Qed.

(** X20. On the unpaired pairing screen the countdown stays between 1 and
    600 and has period 600: from any such value, 600 ticks of one second
    bring back the same screen state, in step with the ten minutes of the
    code timer.  On a paired screen a tick changes nothing. *)
Theorem countdown_period (p : DevicePairing.Pairing) :
  1 <= DevicePairing.countdown p <= 600 →
  (DevicePairing.isPaired p = false →
     1 <= DevicePairing.countdown (DevicePairing.countdownTick p) <= 600
     ∧ Nat.iter 600 DevicePairing.countdownTick p = p)
  ∧ (DevicePairing.isPaired p = true → DevicePairing.countdownTick p = p).
Proof.
  intros Hc. split; intros Hp.
  - split.
    + unfold DevicePairing.countdownTick. rewrite Hp. simpl.
      destruct (Z.leb_spec (DevicePairing.countdown p) 1); lia.
    + set (c := Z.to_nat (DevicePairing.countdown p)).
      replace 600%nat with ((600 - c) + (1 + (c - 1)))%nat by lia.
      rewrite Nat.iter_add, Nat.iter_add.
      rewrite (countdown_run p (c - 1)) by (done || lia).
      change (Nat.iter 1 ?f ?x) with (f x).
      unfold DevicePairing.countdownTick at 2. simpl.
      destruct (Z.leb_spec (DevicePairing.countdown p - Z.of_nat (c - 1)) 1); [|lia].
      rewrite countdown_run by (simpl; lia). simpl.
      destruct p; simpl in *. subst. f_equal. lia.
  - unfold DevicePairing.countdownTick. by rewrite Hp.
Qed.

Lemma countdown_period_witness :
  Nat.iter 600 DevicePairing.countdownTick pairing_screen = pairing_screen.
Proof.
  assert (H : 1 <= DevicePairing.countdown pairing_screen <= 600) by (simpl; lia).
  exact (proj2 (proj1 (countdown_period pairing_screen H) eq_refl)).
Defined.

Lemma refresh_code_effect (w : World) :
  let fresh := pretty (100000 + entropy w (draws w) `mod` 900000) in
  (storage_ok w = true →
     ∃ w1, DeviceService.refreshDeviceCode w = (Return fresh, w1)
       ∧ ss_device_code (sessionStorage w1) = Some fresh
       ∧ storage_ok w1 = true ∧ devices w1 = devices w ∧ outages w1 = outages w
       ∧ DeviceService.getDeviceCode w1 = (Return fresh, w1))
  ∧ (storage_ok w = false →
       DeviceService.refreshDeviceCode w = (Throw SecurityError, with_draw w)).
Proof.
  intros fresh. unfold DeviceService.refreshDeviceCode, DeviceService.getDeviceCode,
    DeviceService.generateDeviceCode. eff_unfold.
  destruct w as [n e d ok ls ss o dv q ip]; simpl in *.
  pose proof (six_digits_truthy _ (code_range (e d))) as Ht. simpl in Ht.
  split; intros ->; simpl; [|done].
  eexists. split; [reflexivity|]. simpl. repeat (split; [done|]).
  fold fresh in Ht |- *. by rewrite Ht.
Qed.

(** X21. When updating the remote record fails after a click on the
    refresh button, the session storage already holds the new code while
    the screen keeps the old code and QR data: the remote table is
    unchanged and the handler does not throw. *)
Theorem failed_manual_refresh_desynchronises
    (p : DevicePairing.Pairing) (w : World) (rest : list bool) :
  storage_ok w = true → outages w = true :: rest →
  ∃ w', DevicePairing.clickRefreshCode p w = (Return p, w')
    ∧ ss_device_code (sessionStorage w')
      = Some (pretty (100000 + entropy w (draws w) `mod` 900000))
    ∧ devices w' = devices w.
Proof.
  intros Hok Hout. unfold DevicePairing.clickRefreshCode.
  destruct (proj1 (refresh_code_effect w) Hok) as (w1 & Hr & Hss & Hok1 & Hdv1 & Hout1 & Hget).
  unfold try_catch. rewrite (bind_returns _ _ _ _ Hr).
  unfold DeviceService.updateDeviceCode.
  destruct (getDeviceId_frame w1) as (id & wa & Hid & Hda & Hoa & Hoka & Hssa & _).
  assert (Hcode : DeviceService.getDeviceCode wa
                  = (Return (pretty (100000 + entropy w (draws w) `mod` 900000)), wa)).
  { apply getDeviceCode_session; [congruence|congruence|].
    apply six_digits_truthy, code_range. }
  unfold mbind at 1, eff_bind at 1.
  rewrite (bind_returns _ _ _ _ Hid), (bind_returns _ _ _ _ Hcode).
  assert (Ho : outages wa = true :: rest) by congruence.
  assert (Hs : ss_device_code (sessionStorage wa)
               = Some (pretty (100000 + entropy w (draws w) `mod` 900000))) by congruence.
  assert (Hd : devices wa = devices w) by congruence.
  clear Hid Hcode Hoa Hda Hoka Hssa Hr Hget.
  unfold rpc_refresh_device_code, transport_fails. eff_unfold.
  destruct wa as [n e d ok ls ss o dv q ip]; simpl in *. subst o. simpl.
  eexists. split; [reflexivity|]. simpl. done.
Qed.

Lemma failed_manual_refresh_desynchronises_witness :
  ∃ w', DevicePairing.clickRefreshCode pairing_screen
          (with_outages (λ _, [true]) world_unpaired) = (Return pairing_screen, w')
    ∧ ss_device_code (sessionStorage w') = Some "654321"
    ∧ devices w' = devices world_unpaired.
Proof.
  exact (failed_manual_refresh_desynchronises pairing_screen
           (with_outages (λ _, [true]) world_unpaired) [] eq_refl eq_refl).
Defined.

(** *** Debounce, beyond one burst *)

Import ContentSubscription.

Lemma run_isolated (later : list (Z * Stream)) : ∀ t rs T,
  isolated t later → last_time t later + 500 <= T →
  refreshes (elapse T (run later (mkSubscription (Some (t + 500)) rs)))
  = (rs ++ map (λ x, x + 500) (t :: map fst later))%list.
Proof.
  induction later as [|e later IH]; intros t rs T Hiso HT.
  - unfold last_time in HT. simpl in *. unfold elapse, timeout. simpl.
    destruct (Z.leb_spec (t + 500) T); [done|lia].
  - destruct Hiso as [Hgap Hiso]. rewrite last_time_cons in HT.
    unfold run in *. simpl.
    replace (notify e.1 e.2 (mkSubscription (Some (t + 500)) rs))
      with (mkSubscription (Some (e.1 + 500)) (rs ++ [t + 500])%list).
    + rewrite (IH e.1 (rs ++ [t + 500])%list T Hiso HT). by rewrite <- app_assoc.
    + unfold notify, elapse, timeout, fetchAndCallback. simpl.
      destruct (Z.leb_spec (t + 500) e.1); [|lia]. by destruct e.2.
Qed.

(** X22. Notifications that are at least 500 ms apart are not coalesced:
    each one gets its own refresh, 500 ms after it, in order. *)
Theorem isolated_notifications_each_refresh
    (t : Z) (on : Stream) (later : list (Z * Stream)) (T : Z) :
  isolated t later → last_time t later + 500 <= T →
  refreshes (elapse T (run ((t, on) :: later) subscribed))
  = map (λ x, x + 500) (t :: map fst later).
Proof.
  intros Hiso HT.
  replace (run ((t, on) :: later) subscribed)
    with (run later (mkSubscription (Some (t + 500)) [])).
  - by rewrite (run_isolated later t [] T Hiso HT).
  - unfold run. simpl. f_equal. by destruct on.
Qed.

Lemma isolated_notifications_each_refresh_witness :
  refreshes (elapse 5000
               (run [(1000, device_content_changes); (1500, content_changes);
                     (2600, content_changes)] subscribed))
  = [1500; 2000; 3100].
Proof.
  apply (isolated_notifications_each_refresh 1000 device_content_changes
           [(1500, content_changes); (2600, content_changes)] 5000).
  - simpl. lia.
  - vm_compute. discriminate.
Defined.

Lemma scheduled_elapse (T : Z) (s : Subscription) : scheduled (elapse T s) = scheduled s.
Proof.
  unfold scheduled, elapse, timeout. destruct (debounceTimer s) as [due|] eqn:Hd; simpl.
  - destruct (due <=? T); simpl; rewrite ?Hd; [by rewrite app_nil_r|done].
  - by rewrite Hd.
Qed.

Lemma scheduled_notify (t : Z) (on : Stream) (s : Subscription) :
  ∃ l, scheduled (notify t on s) = (l ++ [t + 500])%list
       ∧ l ⊆ scheduled s ∧ (length l <= length (scheduled s))%nat.
Proof.
  exists (refreshes (elapse t s)). split.
  - by destruct on.
  - rewrite <- (scheduled_elapse t s). unfold scheduled. split.
    + intros x Hx. apply elem_of_app. by left.
    + rewrite length_app. lia.
Qed.

Lemma scheduled_run (events : list (Z * Stream)) : ∀ s,
  (length (scheduled (run events s)) <= length (scheduled s) + length events)%nat
  ∧ ∀ r, r ∈ scheduled (run events s) →
         r ∈ scheduled s ∨ ∃ e, e ∈ events ∧ r = e.1 + 500.
Proof.
  induction events as [|e events IH]; intros s.
  - split; [simpl; lia|by left].
  - change (run (e :: events) s) with (run events (notify e.1 e.2 s)).
    destruct (IH (notify e.1 e.2 s)) as [Hlen Hmem].
    destruct (scheduled_notify e.1 e.2 s) as (l & Hl & Hsub & Hll).
    split.
    + rewrite Hl, length_app in Hlen. simpl in *. lia.
    + intros r Hr. destruct (Hmem r Hr) as [Hin|(e' & He' & ->)].
      * rewrite Hl in Hin. apply elem_of_app in Hin as [Hin|Hin].
        -- left. by apply Hsub.
        -- right. exists e. split; [left|]. by apply list_elem_of_singleton in Hin.
      * right. exists e'. split; [by right|done].
Qed.

(** X23. For every sequence of notifications, whatever their times and
    streams, a subscription never refreshes more often than it was
    notified, and every refresh runs 500 ms after one of the
    notifications. *)
Theorem refreshes_bounded_by_notifications (events : list (Z * Stream)) (T : Z) :
  (length (refreshes (elapse T (run events subscribed))) <= length events)%nat
  ∧ ∀ r, r ∈ refreshes (elapse T (run events subscribed)) →
         ∃ e, e ∈ events ∧ r = e.1 + 500.
Proof.
  destruct (scheduled_run events subscribed) as [Hlen Hmem].
  rewrite <- (scheduled_elapse T) in Hlen, Hmem.
  set (s := elapse T (run events subscribed)) in *.
  split.
  - unfold scheduled in Hlen. rewrite length_app in Hlen. simpl in Hlen. lia.
  - intros r Hr. destruct (Hmem r) as [Hin|He]; [|by apply elem_of_nil in Hin|done].
    unfold scheduled. apply elem_of_app. by left.
Qed.

(** *** The scheduler, beyond one advance *)

Lemma tick_tick_showing (c : list Content) (i t : Z) :
  (2 <= length c)%nat → 0 <= i < Z.of_nat (length c) →
  tick (tick (showing c i t))
  = showing c ((i + 1) `mod` Z.of_nat (length c))
      (t + setTimeout_delay (item_delay (c !! Z.to_nat i)) + 300).
Proof.
  intros Hlen Hi.
  assert (Hneg : (i <? 0) = false) by (apply Z.ltb_ge; lia).
  assert (Hlen1 : (Z.of_nat (length c) <=? 1) = false) by (apply Z.leb_gt; lia).
  unfold showing, tick at 2, fire_timer, transition. simpl.
  rewrite Hneg. simpl. rewrite Hlen1.
  unfold tick, fire_commit. simpl.
  pose proof (advance_forward_moves (Z.of_nat (length c)) i ltac:(lia) Hi) as Hmove.
  pose proof (advance_forward_in_range (Z.of_nat (length c)) i ltac:(lia) ltac:(lia)) as Hin.
  unfold advance in *. rewrite Z.rem_mod_nonneg in * by lia.
  destruct (Z.eqb_spec ((i + 1) `mod` Z.of_nat (length c)) i) as [?|_]; [done|].
  unfold effect, startTimer, content_length, currentContent. simpl.
  destruct (Z.eqb_spec (Z.of_nat (length c)) 0) as [?|_]; [lia|].
  reflexivity.
Qed.

(** X24. Left alone, a playlist of two or more items is shown in order
    and wraps around: after [k] advances (two timers each) from item [i]
    the display shows item [(i + k) mod length], with no transition
    pending, at least 300 ms per advance later; after [length] advances it
    shows item [i] again. *)
Theorem playlist_cycles_in_order (c : list Content) (i t : Z) (k : nat) :
  (2 <= length c)%nat → 0 <= i < Z.of_nat (length c) →
  ∃ t', Nat.iter (2 * k) tick (showing c i t)
        = showing c ((i + Z.of_nat k) `mod` Z.of_nat (length c)) t'
    ∧ t + 300 * Z.of_nat k <= t'.
Proof.
  intros Hlen Hi. induction k as [|k (t' & IH & Ht')].
  - exists t. split; [|lia]. simpl. rewrite Z.add_0_r, Z.mod_small by lia. done.
  - replace (2 * S k)%nat with (2 + 2 * k)%nat by lia.
    rewrite Nat.iter_add, IH. simpl Nat.iter.
    rewrite tick_tick_showing; [|done|by apply Z.mod_pos_bound; lia].
    eexists. split.
    + f_equal. rewrite Zplus_mod_idemp_l. f_equal. lia.
    + match goal with
      | |- context [setTimeout_delay ?ms] => pose proof (setTimeout_delay_nonneg ms)
      end. lia.
Qed.

Lemma playlist_cycles_in_order_witness :
  ∃ t', Nat.iter 6 tick (showing abc 1 0) = showing abc 1 t' ∧ 0 + 300 * 3 <= t'.
Proof.
  assert (Hlen : (2 <= length abc)%nat) by (simpl; lia).
  assert (Hi : 0 <= 1 < Z.of_nat (length abc)) by (simpl; lia).
  exact (playlist_cycles_in_order abc 1 0 3 Hlen Hi).
Defined.

(** X25. On an index in range the two index updaters undo each other:
    previous after next, and next after previous, give the index back. *)
Theorem previous_undoes_next (len i : Z) :
  2 <= len → 0 <= i < len →
  advance backward len (advance forward len i) = i
  ∧ advance forward len (advance backward len i) = i.
Proof.
  intros Hlen Hi. unfold advance.
  assert (H1 : 0 <= (i + 1) `mod` len < len) by (apply Z.mod_pos_bound; lia).
  assert (H2 : 0 <= (i - 1 + len) `mod` len < len) by (apply Z.mod_pos_bound; lia).
  rewrite (Z.rem_mod_nonneg (i + 1) len), (Z.rem_mod_nonneg (i - 1 + len) len) by lia.
  rewrite !Z.rem_mod_nonneg by lia. split.
  - destruct (Z.eq_dec (i + 1) len) as [Heq|Hne].
    + rewrite Heq, Z.mod_same by lia. simpl.
      rewrite Z.mod_small by lia. lia.
    + rewrite (Z.mod_small (i + 1)) by lia.
      replace (i + 1 - 1 + len) with (i + 1 * len) by lia.
      rewrite Z.mod_add by lia. apply Z.mod_small. lia.
  - destruct (Z.eq_dec i 0) as [->|Hne].
    + rewrite (Z.mod_small (0 - 1 + len)) by lia.
      replace (0 - 1 + len + 1) with len by lia. apply Z.mod_same. lia.
    + replace (i - 1 + len) with (i - 1 + 1 * len) by lia.
      rewrite Z.mod_add by lia. rewrite (Z.mod_small (i - 1)) by lia.
      replace (i - 1 + 1) with i by lia. apply Z.mod_small. lia.
Qed.

Lemma previous_undoes_next_witness :
  advance backward 3 (advance forward 3 2) = 2
  ∧ advance forward 3 (advance backward 3 0) = 0.
Proof.
  split.
  - apply (previous_undoes_next 3 2); lia.
  - apply (previous_undoes_next 3 0); lia.
Defined.

(** X26. A playlist of one item that arrives while the index is 1 or
    more, with no transition pending, is never shown: the index stays, the
    current item stays undefined (the placeholder is rendered) and the
    navigation buttons stay disabled, however many timers run. *)
Theorem stale_index_hides_single_item (x : Content) (s : Display) (n : nat) :
  1 <= currentIndex s → commits s = [] →
  let s' := Nat.iter n tick (setContent [x] s) in
  currentIndex s' = currentIndex s
  ∧ currentContent s' = None
  ∧ clickNext s' = s' ∧ clickPrevious s' = s'.
Proof.
  intros Hi Hc s'.
  assert (Hneg : (currentIndex s <? 0) = false) by (apply Z.ltb_ge; lia).
  assert (Hnone : [x] !! Z.to_nat (currentIndex s) = None).
  { apply lookup_ge_None_2. simpl. lia. }
  assert (Hset : setContent [x] s
                 = mkDisplay [x] (currentIndex s) (isTransitioning s)
                     (Some (clock s + 10000, 1)) [] (clock s)).
  { clear s'. destruct s as [pl i tr tm cm ck]; simpl in *. subst cm.
    unfold setContent, effect, startTimer, content_length, currentContent. simpl.
    rewrite Hneg, Hnone. reflexivity. }
  assert (Hcases : s' = setContent [x] s
                   ∨ s' = mkDisplay [x] (currentIndex s) (isTransitioning s) None []
                            (clock s + 10000)).
  { unfold s'. destruct n as [|n]; [by left|right]. rewrite Hset.
    clear s' Hset. induction n as [|n IH]; [reflexivity|].
    change (Nat.iter (S (S n)) tick ?s) with (tick (Nat.iter (S n) tick s)).
    rewrite IH. reflexivity. }
  assert (Hcur : currentContent s' = None ∧ currentIndex s' = currentIndex s).
  { destruct Hcases as [-> | ->]; [rewrite Hset|];
      unfold currentContent; simpl; by rewrite Hneg, Hnone. }
  destruct Hcur as [Hcur Hidx]. split; [done|]. split; [done|].
  unfold clickNext, clickPrevious, buttons_enabled. rewrite Hcur.
  rewrite bool_decide_eq_false_2; [done|]. by intros [? [=]].
Qed.

Lemma stale_index_hides_single_item_witness :
  let s' := Nat.iter 50 tick (setContent [item "x" 5] showing_b) in
  currentIndex s' = 1 ∧ currentContent s' = None.
Proof.
  assert (Hi : 1 <= currentIndex showing_b) by (vm_compute; discriminate).
  destruct (stale_index_hides_single_item (item "x" 5) showing_b 50 Hi eq_refl)
    as (H1 & H2 & _).
  split; [exact H1|exact H2].
Defined.

(** X27. A playlist of two or more items that arrives while the index is
    past its end, with no transition pending, shows no item (the
    placeholder) for the default 10 s; the advance that follows, 300 ms
    later, brings the index back in range and an item on display. *)
Theorem stale_index_recovers (new : list Content) (s : Display) :
  (2 <= length new)%nat → Z.of_nat (length new) <= currentIndex s → commits s = [] →
  currentContent (setContent new s) = None
  ∧ clock (tick (tick (setContent new s))) = clock s + 10000 + 300
  ∧ currentIndex (tick (tick (setContent new s)))
    = (currentIndex s + 1) `mod` Z.of_nat (length new)
  ∧ is_Some (currentContent (tick (tick (setContent new s))))
  ∧ isTransitioning (tick (tick (setContent new s))) = false.
Proof.
  intros Hlen Hi Hc.
  assert (Hneg : (currentIndex s <? 0) = false) by (apply Z.ltb_ge; lia).
  assert (Hnone : new !! Z.to_nat (currentIndex s) = None).
  { apply lookup_ge_None_2. lia. }
  assert (Hlen1 : (Z.of_nat (length new) <=? 1) = false) by (apply Z.leb_gt; lia).
  assert (Hlen0 : (Z.of_nat (length new) =? 0) = false) by (apply Z.eqb_neq; lia).
  pose proof (Z.mod_pos_bound (currentIndex s + 1) (Z.of_nat (length new)) ltac:(lia)) as Hin.
  destruct s as [pl i tr tm cm ck]; simpl in *. subst cm.
  set (j := (i + 1) `mod` Z.of_nat (length new)) in *.
  assert (Hset : setContent new (mkDisplay pl i tr tm [] ck)
                 = mkDisplay new i tr (Some (ck + 10000, Z.of_nat (length new))) [] ck).
  { unfold setContent, effect, startTimer, content_length, currentContent. simpl.
    rewrite Hlen0. simpl. by rewrite Hneg, Hnone. }
  assert (Hgo : tick (tick (setContent new (mkDisplay pl i tr tm [] ck)))
                = showing new j (ck + 10000 + 300)).
  { rewrite Hset. unfold tick at 2. simpl. unfold fire_timer, transition. simpl.
    rewrite Hlen1. unfold tick, fire_commit, advance. simpl.
    rewrite Z.rem_mod_nonneg by lia. fold j.
    destruct (Z.eqb_spec j i) as [?|_]; [lia|].
    unfold effect, startTimer, content_length, currentContent, showing. simpl.
    by rewrite Hlen0. }
  rewrite Hgo. split.
  { rewrite Hset. unfold currentContent. simpl. by rewrite Hneg. }
  unfold showing, currentContent. simpl.
  split; [done|]. split; [done|]. split; [|done].
  destruct (Z.ltb_spec j 0) as [?|_]; [lia|].
  apply lookup_lt_is_Some_2. lia.
Qed.

Lemma stale_index_recovers_witness :
  let s := set_currentIndex 2 (showing abc 2 0) in
  currentContent (setContent [item "x" 5; item "y" 5] s) = None
  ∧ currentIndex (tick (tick (setContent [item "x" 5; item "y" 5] s))) = 1.
Proof.
  assert (Hlen : (2 <= length [item "x" 5; item "y" 5])%nat) by (simpl; lia).
  assert (Hi : Z.of_nat (length [item "x" 5; item "y" 5])
               <= currentIndex (set_currentIndex 2 (showing abc 2 0))) by (simpl; lia).
  destruct (stale_index_recovers [item "x" 5; item "y" 5]
              (set_currentIndex 2 (showing abc 2 0)) Hlen Hi eq_refl)
    as (H1 & _ & H2 & _).
  split; [exact H1|exact H2].
Defined.

(** X28. [nextContent] itself is not guarded against a transition in
    progress (only the buttons are): called twice before the first
    300 ms timeout has run, as a video that fails and ends can do, it
    queues two transitions, and 300 ms later the display has skipped an
    item (the item timer not being due within these 300 ms). *)
Theorem double_next_skips_item (c : list Content) (i t : Z) :
  (2 <= length c)%nat → 0 <= i < Z.of_nat (length c) →
  300 <= setTimeout_delay (item_delay (c !! Z.to_nat i)) →
  clickNext (nextContent (showing c i t)) = nextContent (showing c i t)
  ∧ length (commits (nextContent (nextContent (showing c i t)))) = 2%nat
  ∧ tick (tick (nextContent (nextContent (showing c i t))))
    = showing c ((i + 2) `mod` Z.of_nat (length c)) (t + 300).
Proof.
  intros Hlen Hi Hdelay.
  set (len := Z.of_nat (length c)).
  assert (Hneg : (i <? 0) = false) by (apply Z.ltb_ge; lia).
  assert (Hlen1 : (len <=? 1) = false) by (apply Z.leb_gt; lia).
  assert (Hlen0 : (len =? 0) = false) by (apply Z.eqb_neq; lia).
  pose proof (advance_forward_moves len i ltac:(lia) Hi) as Hmove.
  pose proof (advance_forward_in_range len i ltac:(lia) ltac:(lia)) as Hin.
  pose proof (advance_forward_moves len _ ltac:(lia) Hin) as Hmove2.
  unfold advance in Hmove, Hin, Hmove2. rewrite !Z.rem_mod_nonneg in * by lia.
  assert (Hj2 : ((i + 1) `mod` len + 1) `mod` len = (i + 2) `mod` len).
  { rewrite Zplus_mod_idemp_l. f_equal. lia. }
  set (j := (i + 1) `mod` len) in *.
  set (due1 := t + setTimeout_delay (item_delay (c !! Z.to_nat i))).
  assert (H1 : nextContent (showing c i t)
               = mkDisplay c i true (Some (due1, len)) [mkCommit (t + 300) forward len] t).
  { unfold nextContent, transition, showing, content_length. simpl. fold len.
    rewrite Hlen1, Hneg. reflexivity. }
  assert (H2 : nextContent (nextContent (showing c i t))
               = mkDisplay c i true (Some (due1, len))
                   [mkCommit (t + 300) forward len; mkCommit (t + 300) forward len] t).
  { rewrite H1. unfold nextContent, transition, content_length. simpl. fold len.
    rewrite Hlen1. reflexivity. }
  split.
  { rewrite H1. unfold clickNext, buttons_enabled. simpl. by rewrite !andb_false_r. }
  rewrite H2. split; [done|].
  assert (H3 : tick (mkDisplay c i true (Some (due1, len))
                       [mkCommit (t + 300) forward len; mkCommit (t + 300) forward len] t)
               = mkDisplay c j false
                   (Some (t + 300 + setTimeout_delay (item_delay (c !! Z.to_nat j)), len))
                   [mkCommit (t + 300) forward len] (t + 300)).
  { unfold tick. simpl.
    destruct (Z.leb_spec (t + 300) due1) as [_|?]; [|unfold due1 in *; lia].
    unfold fire_commit, advance. simpl. rewrite Z.rem_mod_nonneg by lia. fold j.
    destruct (Z.eqb_spec j i) as [?|_]; [done|].
    unfold effect, startTimer, content_length, currentContent. simpl. fold len.
    rewrite Hlen0. simpl.
    destruct (Z.ltb_spec j 0) as [?|_]; [lia|]. reflexivity. }
  rewrite H3. unfold tick. simpl.
  pose proof (setTimeout_delay_nonneg (item_delay (c !! Z.to_nat j))) as Hnn.
  destruct (Z.leb_spec (t + 300) (t + 300 + setTimeout_delay (item_delay (c !! Z.to_nat j))))
    as [_|?]; [|lia].
  unfold fire_commit, advance. simpl. rewrite Z.rem_mod_nonneg by lia. rewrite Hj2 in *.
  destruct (Z.eqb_spec ((i + 2) `mod` len) j) as [?|_]; [done|].
  unfold effect, startTimer, content_length, currentContent, showing. simpl. fold len.
  by rewrite Hlen0.
Qed.

Lemma double_next_skips_item_witness :
  currentIndex (tick (tick (nextContent (nextContent (showing abc 0 0))))) = 2.
Proof.
  assert (Hlen : (2 <= length abc)%nat) by (simpl; lia).
  assert (Hi : 0 <= 0 < Z.of_nat (length abc)) by (simpl; lia).
  assert (Hd : 300 <= setTimeout_delay (item_delay (abc !! Z.to_nat 0)))
    by (vm_compute; discriminate).
  pose proof (proj2 (proj2 (double_next_skips_item abc 0 0 Hlen Hi Hd))) as H.
  rewrite H. reflexivity.
Defined.

(** *** The handshake payload *)

(** X29. After a registration that succeeded with usable storage, the
    data for the QR code names the record just registered: its device id
    is the key of that record in the remote table and its code is the
    record's code. *)
Theorem qr_matches_registered_record (w w' : World) (d : Device) :
  storage_ok w = true →
  DeviceService.registerDevice w = (Return d, w') →
  ∃ qr w'', DeviceService.generateQRCodeData w' = (Return qr, w'')
    ∧ DeviceService.qr_type qr = "pi_board_device"
    ∧ devices w' !! DeviceService.qr_device_id qr = Some d
    ∧ DeviceService.qr_device_code qr = device_code d
    ∧ DeviceService.qr_timestamp qr = now w'.
Proof.
  intros Hok H.
  pose proof H as Hinv.
  apply registerDevice_inv in Hinv as (id & c & wa & wb & wc & check & Hid & Hc & Hs & Hbr).
  apply registerDevice_effect in H
    as (id' & c' & wa' & wb' & Hid' & Hc' & [[[e [=]] _]|(d' & [= <-] & Hw' & Hcode & _)]).
  rewrite Hid in Hid'. injection Hid' as <- <-. rewrite Hc in Hc'. injection Hc' as <- <-.
  destruct (getDeviceId_frame w) as (? & ? & Hid2 & _ & _ & Hoka & Hssa & Hst).
  rewrite Hid in Hid2. injection Hid2 as <- <-.
  destruct (Hst Hok) as (Hlsa & Htid & _).
  assert (Hokwa : storage_ok wa = true) by congruence.
  destruct (getDeviceCode_stored wa Hokwa) as (? & ? & Hc2 & Htc & Hssb & _).
  rewrite Hc in Hc2. injection Hc2 as <- <-.
  destruct (getDeviceCode_frame wa) as (? & ? & Hc3 & _ & _ & Hokb & Hlsb).
  rewrite Hc in Hc3. injection Hc3 as <- <-.
  apply select_device_spec in Hs as (_ & (Hokc & Hlsc & Hssc) & _).
  assert (Hst' : same_storage wc w').
  { destruct check; [by apply registerDevice_update_spec in Hbr as [? _]
                    |by apply registerDevice_create_spec in Hbr as [? _]]. }
  destruct Hst' as (Hok' & Hls' & Hss').
  assert (Hok1 : storage_ok w' = true) by congruence.
  assert (Hss1 : ss_device_code (sessionStorage w') = Some c) by congruence.
  assert (Hls1 : ls_device_id (localStorage w') = Some id) by congruence.
  unfold DeviceService.generateQRCodeData.
  rewrite (bind_returns _ _ _ _ (getDeviceCode_session w' c Hok1 Hss1 Htc)).
  destruct (getDeviceId_frame w') as (id2 & w2 & Hid2 & _ & _ & _ & _ & Hst2).
  destruct (Hst2 Hok1) as (_ & _ & Hsame).
  rewrite Hls1 in Hsame. specialize (Hsame Htid). injection Hsame as <-.
  destruct (getDeviceId_returns w') as (? & ? & Hid3 & _ & _ & Hnow & _).
  rewrite Hid2 in Hid3. injection Hid3 as <- <-.
  rewrite (bind_returns _ _ _ _ Hid2).
  eexists _, _. split; [reflexivity|]. simpl.
  split; [done|]. split; [by rewrite Hw', lookup_insert_eq|]. done.
Qed.

Lemma qr_matches_registered_record_witness :
  ∃ d w' qr w'', DeviceService.registerDevice world_paired = (Return d, w')
    ∧ DeviceService.generateQRCodeData w' = (Return qr, w'')
    ∧ devices w' !! DeviceService.qr_device_id qr = Some d
    ∧ DeviceService.qr_device_code qr = device_code d.
Proof.
  destruct (DeviceService.registerDevice world_paired) as [[d|e] w'] eqn:E;
    [|vm_compute in E; discriminate E].
  destruct (qr_matches_registered_record world_paired w' d eq_refl E)
    as (qr & w'' & Hq & _ & Hd & Hc & _).
  exists d, w', qr, w''. split; [reflexivity|]. split; [exact Hq|]. split; [exact Hd|exact Hc].
Defined.

(** *** Polling the pairing state *)

Lemma getDeviceInfo_row (w : World) :
  ∃ info w', DeviceService.getDeviceInfo w = (Return info, w')
    ∧ devices w' = devices w
    ∧ (∀ d, info = Some d → ∃ k, devices w !! k = Some d).
Proof.
  unfold DeviceService.getDeviceInfo.
  destruct (getDeviceId_frame w) as (id & wa & Hid & Hda & _).
  rewrite (bind_returns _ _ _ _ Hid).
  destruct (select_device_outcome id wa) as (r & wc & Hs & Hdc & _ & Hrow & _).
  unfold try_catch. rewrite (bind_returns _ _ _ _ Hs).
  destruct r as [d|e]; eexists _, _; (split; [reflexivity|]); (split; [congruence|]).
  - intros ? [= <-]. exists id. rewrite <- Hda. by apply Hrow.
  - by intros ? [=].
Qed.

Lemma isDevicePaired_down (w : World) (rest : list bool) :
  outages w = true :: rest →
  ∃ w', DeviceService.isDevicePaired w = (Return false, w') ∧ devices w' = devices w.
Proof.
  intros Ho. unfold DeviceService.isDevicePaired.
  destruct (getDeviceId_frame w) as (id & wa & Hid & Hda & Hoa & _).
  rewrite (bind_returns _ _ _ _ Hid).
  destruct (select_device_outcome id wa) as (r & wc & Hs & Hdc & _ & _ & Hdown & _).
  unfold try_catch. rewrite (bind_returns _ _ _ _ Hs).
  destruct (Hdown rest ltac:(congruence)) as [e ->].
  eexists. split; [reflexivity|congruence].
Qed.

(** X30. The poll of the pairing screen never throws and writes nothing
    to the remote table.  It hands a record to [onPaired] only together
    with switching the screen to paired with that record, which is a
    record of the remote table; and a poll that fails in transport makes a
    paired screen unpaired. *)
Theorem checkPairingStatus_sound (p : DevicePairing.Pairing) (w : World) :
  ∃ p' handed w', DevicePairing.checkPairingStatus p w = (Return (p', handed), w')
    ∧ devices w' = devices w
    ∧ (∀ info, handed = Some info →
         DevicePairing.isPaired p = false ∧ DevicePairing.isPaired p' = true
         ∧ DevicePairing.device p' = Some info
         ∧ ∃ k, devices w !! k = Some info)
    ∧ (∀ rest, outages w = true :: rest → DevicePairing.isPaired p = true →
         DevicePairing.isPaired p' = false ∧ DevicePairing.device p' = None).
Proof.
  unfold DevicePairing.checkPairingStatus.
  destruct (isDevicePaired_owner w) as (b & w1 & Hp & Hd1 & _).
  destruct (getDeviceInfo_row w1) as (info & w2 & Hi & Hd2 & Hrow).
  assert (Hdown : ∀ rest, outages w = true :: rest → b = false).
  { intros rest Ho. destruct (isDevicePaired_down w rest Ho) as (w1' & Hp' & _). congruence. }
  unfold try_catch. rewrite (bind_returns _ _ _ _ Hp).
  destruct b, (DevicePairing.isPaired p) eqn:Hpaired; simpl.
  - eexists _, _, _. split; [reflexivity|]. split; [done|]. split; [by intros ? [=]|].
    intros rest Ho _. by specialize (Hdown rest Ho).
  - rewrite (bind_returns _ _ _ _ Hi). destruct info as [d|].
    + eexists _, _, _. split; [reflexivity|]. split; [congruence|]. split.
      * intros ? [= <-]. simpl. repeat (split; [done|]).
        destruct (Hrow d eq_refl) as [k Hk]. exists k. by rewrite <- Hd1.
      * by intros ? _ [=].
    + eexists _, _, _. split; [reflexivity|]. split; [congruence|].
      split; [by intros ? [=]|]. by intros ? _ [=].
  - eexists _, _, _. split; [reflexivity|]. split; [done|]. split; [by intros ? [=]|]. done.
  - eexists _, _, _. split; [reflexivity|]. split; [done|]. split; [by intros ? [=]|].
    by intros ? _ [=].
Qed.

Lemma checkPairingStatus_sound_witness :
  ∃ p' w', DevicePairing.checkPairingStatus pairing_screen world_paired
           = (Return (p', Some paired_record), w')
    ∧ DevicePairing.isPaired p' = true.
Proof.
  destruct (checkPairingStatus_sound pairing_screen world_paired)
    as (p' & handed & w' & Hc & _ & Hh & _).
  assert (Hv : handed = Some paired_record).
  { vm_compute in Hc. injection Hc as _ <- _. reflexivity. }
  subst handed. exists p', w'. split; [exact Hc|].
  exact (proj1 (proj2 (Hh paired_record eq_refl))).
Defined.

(** *** Instances *)

Lemma loadContent_never_reports_error_witness :
  fetch_fails world_fetch_error
  ∧ ∃ h' w', ContentHook.loadContent ContentHook.initial world_fetch_error = (Return h', w')
      ∧ ContentHook.error h' = None
      ∧ is_default (ContentHook.hk_content h').
Proof.
  split; [exact I|].
  destruct (loadContent_never_reports_error ContentHook.initial world_fetch_error)
    as (h' & w' & Hl & He & _ & _ & _ & Hf).
  exists h', w'. split; [exact Hl|]. split; [exact He|]. exact (Hf I).
Defined.

Lemma updateDeviceStatus_touches_status_only_witness :
  ∃ w' d, DeviceService.updateDeviceStatus false world_paired = (Return tt, w')
    ∧ devices w' !! "dev-1" = Some d
    ∧ is_online d = false ∧ last_seen d = toISOString (now world_paired).
Proof.
  destruct (updateDeviceStatus_touches_status_only false world_paired)
    as (w' & Hu & _ & _ & Hown).
  destruct (Hown "dev-1" paired_record) as (d & Hd & Hon & Hseen).
  - eexists. reflexivity.
  - reflexivity.
  - reflexivity.
  - exists w', d. split; [exact Hu|]. split; [exact Hd|]. split; [exact Hon|exact Hseen].
Defined.

Lemma initializeDevice_settles_witness :
  ∃ s' w', DeviceStatus.initializeDevice true DeviceStatus.initial
             (with_outages (λ _, [true; true]) world_paired) = (Return s', w')
    ∧ DeviceStatus.loading s' = false
    ∧ DeviceStatus.isPaired s' = false
    ∧ devices w' = devices world_paired.
Proof.
  destruct (initializeDevice_settles true DeviceStatus.initial
              (with_outages (λ _, [true; true]) world_paired))
    as (s' & w' & Hi & Hl & Hthrow & _).
  destruct (DeviceService.registerDevice (with_outages (λ _, [true; true]) world_paired))
    as [[d|e] w1] eqn:E; [vm_compute in E; discriminate E|].
  destruct (Hthrow e w1 eq_refl) as (Hp & _ & _ & Hd).
  exists s', w'. split; [exact Hi|]. split; [exact Hl|]. split; [exact Hp|exact Hd].
Defined.

Lemma refreshes_bounded_by_notifications_witness :
  Nat.le (length (refreshes (elapse 9000
     (run [(1000, content_changes); (1100, content_changes); (3000, device_content_changes)]
          subscribed)))) 3.
Proof.
  exact (proj1 (refreshes_bounded_by_notifications
                  [(1000, content_changes); (1100, content_changes);
                   (3000, device_content_changes)] 9000)).
Defined.
